(** * The [id-match] rule of eslint-plugin-canonical

    A shallow embedding of the rule's source: the syntax tree the host
    hands to the rule, the regular expression the rule compiles from its
    first option, the closure built by [create], the [Identifier] visitor
    with its helpers [isInvalid], [shouldReport], [report] and
    [isInsideObjectPattern], and the host's traversal that drives them. *)

From Stdlib Require Import Ascii String List Arith Bool Lia.
From stdpp Require Import base decidable option list strings pretty gmap.

Local Open Scope string_scope.
Local Open Scope list_scope.
Local Open Scope nat_scope.

(** ** Regular expressions

    [new RegExp(pattern, 'u')] and [regexp.test(name)] belong to the
    JavaScript runtime.  They are modelled on the fragment of the pattern
    language built from literal characters, [.], character classes, the
    class escapes [\d \D \w \W \s \S], the control escapes
    [\t \n \v \f \r], the assertions [^], [$], [\b] and [\B], grouping,
    alternation and the quantifiers [*], [+], [?], [{n}], [{n,}] and
    [{n,m}].  Look-around assertions, back references, named groups and the
    escapes [\c], [\x], [\u], [\p] and [\0] are outside the fragment.  A
    character is one [ascii] value, read as the code point of that number,
    so a text with a code point above 255 cannot be written; the flags are
    those of the rule: [u] only, so no [g] or [y] (the search always starts
    at index 0 and keeps no [lastIndex]), no [m] ([^] and [$] hold at the
    two ends of the input only), no [s] ([.] rejects line terminators) and
    no [i] (the word characters of [\w] and [\b] are the basic ones). *)
Module RegExp.

Inductive t : Type :=
| Empty
| Char (c : ascii)
| Dot
| Class (negated : bool) (ranges : list (ascii * ascii))
| LineStart
| LineEnd
| WordBoundary
| NotWordBoundary
| Seq (r1 r2 : t)
| Alt (r1 r2 : t)
| Star (r : t).

Definition Plus (r : t) : t := Seq r (Star r).
Definition Opt (r : t) : t := Alt r Empty.

(** [r{n}] *)
Fixpoint Power (r : t) (n : nat) : t :=
  match n with
  | 0 => Empty
  | S n' => Seq r (Power r n')
  end.

(** [r{lo,}] and [r{lo,hi}] *)
Definition Repeat (lo : nat) (hi : option nat) (r : t) : t :=
  Seq (Power r lo)
      match hi with
      | None => Star r
      | Some hi => Power (Opt r) (hi - lo)
      end.

(** LineTerminator: LF and CR are the two below 256. *)
Definition isLineTerminator (c : ascii) : bool :=
  Nat.eqb (nat_of_ascii c) 10 || Nat.eqb (nat_of_ascii c) 13.

Definition inRange (c : ascii) (lohi : ascii * ascii) : bool :=
  Nat.leb (nat_of_ascii (fst lohi)) (nat_of_ascii c)
  && Nat.leb (nat_of_ascii c) (nat_of_ascii (snd lohi)).

Definition inClass (negated : bool) (ranges : list (ascii * ascii))
    (c : ascii) : bool :=
  xorb negated (existsb (inRange c) ranges).

Definition digitRanges : list (ascii * ascii) := [("0", "9")]%char.
Definition wordRanges : list (ascii * ascii) :=
  [("a", "z"); ("A", "Z"); ("0", "9"); ("_", "_")]%char.
(** WhiteSpace and LineTerminator below 256: TAB to CR, SP and NBSP. *)
Definition spaceRanges : list (ascii * ascii) :=
  [(ascii_of_nat 9, ascii_of_nat 13); (" ", " ")%char;
   (ascii_of_nat 160, ascii_of_nat 160)].

(** IsWordChar(e): the character at index [e], if there is one, is a word
    character. *)
Definition isWordChar (s : list ascii) (e : option nat) : bool :=
  match e ≫= (λ k, s !! k) with
  | Some c => existsb (inRange c) wordRanges
  | None => false
  end.

(** The assertion [\b] at index [i]: exactly one of the characters before
    and at [i] is a word character. *)
Definition atWordBoundary (s : list ascii) (i : nat) : bool :=
  xorb (isWordChar s (match i with 0 => None | S k => Some k end))
       (isWordChar s (Some i)).

(** One character at index [i], accepted by [ok]. *)
Definition step (ok : ascii → bool) (s : list ascii) (i : nat) : list nat :=
  match s !! i with
  | Some c => if ok c then [S i] else []
  | None => []
  end.

(** Every end index reachable from [i] by repeating [once]; an iteration
    that consumes nothing adds no new index, so only iterations that move
    forward are followed, and there are at most [fuel] of those. *)
Fixpoint iterate (once : nat → list nat) (fuel : nat) (i : nat) : list nat :=
  i :: match fuel with
       | 0 => []
       | S fuel' =>
           flat_map (λ j, if Nat.ltb i j then iterate once fuel' j else [])
                    (once i)
       end.

(** [ends r s i]: the indices [j] such that [r] matches [s] from [i] to
    [j]. *)
Fixpoint ends (r : t) (s : list ascii) (i : nat) : list nat :=
  match r with
  | Empty => [i]
  | Char c => step (Ascii.eqb c) s i
  | Dot => step (λ c, negb (isLineTerminator c)) s i
  | Class negated ranges => step (inClass negated ranges) s i
  | LineStart => if Nat.eqb i 0 then [i] else []
  | LineEnd => if Nat.eqb i (length s) then [i] else []
  | WordBoundary => if atWordBoundary s i then [i] else []
  | NotWordBoundary => if atWordBoundary s i then [] else [i]
  | Seq r1 r2 => flat_map (ends r2 s) (ends r1 s i)
  | Alt r1 r2 => ends r1 s i ++ ends r2 s i
  | Star r1 => iterate (ends r1 s) (length s - i) i
  end.

(** [regexp.test(name)]: is there a match starting at some index of the
    input, tried from index 0 upwards. *)
Definition test (r : t) (name : string) : bool :=
  let s := list_ascii_of_string name in
  existsb (λ i, match ends r s i with [] => false | _ => true end)
          (seq 0 (S (length s))).

(** *** Reading a pattern *)

(** What a quantifier may still be applied to. *)
Inductive Term : Type :=
| Atom (r : t)        (* an atom: takes a quantifier *)
| Quantified (r : t)  (* a quantified atom: takes the lazy mark [?] only *)
| Closed (r : t).     (* an assertion or a lazy quantifier: takes nothing *)

Definition termRegExp (x : Term) : t :=
  match x with Atom r | Quantified r | Closed r => r end.

(** The disjunction being read: the alternatives already closed by [|] and
    the terms of the current one, both most recent first. *)
Record Frame : Type := mkFrame { alternatives : list t; terms : list Term }.

Definition emptyFrame : Frame := mkFrame [] [].

Definition alternative (terms : list Term) : t :=
  match terms with
  | [] => Empty
  | x :: before =>
      fold_left (λ acc y, Seq (termRegExp y) acc) before (termRegExp x)
  end.

Definition disjunction (f : Frame) : t :=
  fold_left (λ acc a, Alt a acc) (alternatives f) (alternative (terms f)).

Definition push (x : Term) (f : Frame) : Frame :=
  mkFrame (alternatives f) (x :: terms f).

Definition quantify (q : t → t) (f : Frame) : option Frame :=
  match terms f with
  | Atom r :: before => Some (mkFrame (alternatives f) (Quantified (q r) :: before))
  | _ => None
  end.

Definition questionMark (f : Frame) : option Frame :=
  match terms f with
  | Atom r :: before => Some (mkFrame (alternatives f) (Quantified (Opt r) :: before))
  | Quantified r :: before => Some (mkFrame (alternatives f) (Closed r :: before))
  | _ => None
  end.

Definition isSyntaxCharacter (c : ascii) : bool :=
  existsb (Ascii.eqb c)
          (list_ascii_of_string "^$\.*+?()[]{}|/").

Definition digit : t := Class false digitRanges.
Definition word : t := Class false wordRanges.

(** The escapes read outside a class, [c] being the character after the
    backslash. *)
Definition escape (c : ascii) : option Term :=
  if isSyntaxCharacter c then Some (Atom (Char c))
  else if Ascii.eqb c "d" then Some (Atom digit)
  else if Ascii.eqb c "D" then Some (Atom (Class true digitRanges))
  else if Ascii.eqb c "w" then Some (Atom word)
  else if Ascii.eqb c "W" then Some (Atom (Class true wordRanges))
  else if Ascii.eqb c "s" then Some (Atom (Class false spaceRanges))
  else if Ascii.eqb c "S" then Some (Atom (Class true spaceRanges))
  else if Ascii.eqb c "b" then Some (Closed WordBoundary)
  else if Ascii.eqb c "B" then Some (Closed NotWordBoundary)
  else if Ascii.eqb c "t" then Some (Atom (Char (ascii_of_nat 9)))
  else if Ascii.eqb c "n" then Some (Atom (Char (ascii_of_nat 10)))
  else if Ascii.eqb c "v" then Some (Atom (Char (ascii_of_nat 11)))
  else if Ascii.eqb c "f" then Some (Atom (Char (ascii_of_nat 12)))
  else if Ascii.eqb c "r" then Some (Atom (Char (ascii_of_nat 13)))
  else None.

(** The escapes read inside a class that stand for a set of characters. *)
Definition classEscape (c : ascii) : option (list (ascii * ascii)) :=
  if Ascii.eqb c "d" then Some digitRanges
  else if Ascii.eqb c "w" then Some wordRanges
  else if Ascii.eqb c "s" then Some spaceRanges
  else None.

Definition decimal (c : ascii) : option nat :=
  if Nat.leb 48 (nat_of_ascii c) && Nat.leb (nat_of_ascii c) 57
  then Some (nat_of_ascii c - 48) else None.

Inductive Mode : Type :=
| Outside
| Inside (negated : bool) (ranges : list (ascii * ascii))
| Lower (lo : option nat)              (* after [{], reading the first number *)
| Upper (lo : nat) (hi : option nat).  (* after [{lo,], reading the second *)

(** A single pass over the pattern text.  [outer] holds the disjunctions
    left open by [(].  [None] says that the pattern is not read: it is one
    the constructor rejects with a SyntaxError, or one that uses syntax
    outside the fragment. *)
Fixpoint parse (mode : Mode) (outer : list Frame) (cur : Frame)
    (p : list ascii) {struct p} : option t :=
  match mode with
  | Inside negated ranges =>
      match p with
      | [] => None
      | "]"%char :: rest =>
          parse Outside outer (push (Atom (Class negated (rev ranges))) cur) rest
      | "\"%char :: e :: rest =>
          match classEscape e with
          | Some set =>
              (* a set is no end of a range *)
              match rest with
              | "-"%char :: hi :: _ =>
                  if Ascii.eqb hi "]"
                  then parse (Inside negated (set ++ ranges)) outer cur rest
                  else None
              | _ => parse (Inside negated (set ++ ranges)) outer cur rest
              end
          | None =>
              if isSyntaxCharacter e || Ascii.eqb e "-" then
                match rest with
                | "-"%char :: hi :: rest' =>
                    if Ascii.eqb hi "]" then parse (Inside negated ((e, e) :: ranges)) outer cur rest
                    else if Ascii.eqb hi "\" then None
                    else if Nat.leb (nat_of_ascii e) (nat_of_ascii hi)
                         then parse (Inside negated ((e, hi) :: ranges)) outer cur rest'
                         else None
                | _ => parse (Inside negated ((e, e) :: ranges)) outer cur rest
                end
              else None
          end
      | "\"%char :: [] => None
      | c :: rest =>
          match rest with
          | "-"%char :: hi :: rest' =>
              if Ascii.eqb hi "]" then parse (Inside negated ((c, c) :: ranges)) outer cur rest
              else if Ascii.eqb hi "\" then None
              else if Nat.leb (nat_of_ascii c) (nat_of_ascii hi)
                   then parse (Inside negated ((c, hi) :: ranges)) outer cur rest'
                   else None
          | _ => parse (Inside negated ((c, c) :: ranges)) outer cur rest
          end
      end
  | Lower lo =>
      match p with
      | [] => None
      | c :: rest =>
          match decimal c with
          | Some d => parse (Lower (Some (10 * default 0 lo + d))) outer cur rest
          | None =>
              match lo with
              | Some n =>
                  if Ascii.eqb c "," then parse (Upper n None) outer cur rest
                  else if Ascii.eqb c "}" then
                    match quantify (Repeat n (Some n)) cur with
                    | Some cur' => parse Outside outer cur' rest
                    | None => None
                    end
                  else None
              | None => None
              end
          end
      end
  | Upper lo hi =>
      match p with
      | [] => None
      | c :: rest =>
          match decimal c with
          | Some d => parse (Upper lo (Some (10 * default 0 hi + d))) outer cur rest
          | None =>
              if Ascii.eqb c "}" then
                if Nat.leb lo (default lo hi) then
                  match quantify (Repeat lo hi) cur with
                  | Some cur' => parse Outside outer cur' rest
                  | None => None
                  end
                else None
              else None
          end
      end
  | Outside =>
      match p with
      | [] => match outer with [] => Some (disjunction cur) | _ :: _ => None end
      | "|"%char :: rest =>
          parse Outside outer (mkFrame (alternative (terms cur) :: alternatives cur) []) rest
      | "("%char :: rest =>
          match rest with
          | "?"%char :: rest1 =>
              match rest1 with
              | ":"%char :: rest2 => parse Outside (cur :: outer) emptyFrame rest2
              | _ => None
              end
          | _ => parse Outside (cur :: outer) emptyFrame rest
          end
      | ")"%char :: rest =>
          match outer with
          | [] => None
          | f :: outer' => parse Outside outer' (push (Atom (disjunction cur)) f) rest
          end
      | "*"%char :: rest =>
          match quantify Star cur with
          | Some cur' => parse Outside outer cur' rest
          | None => None
          end
      | "+"%char :: rest =>
          match quantify Plus cur with
          | Some cur' => parse Outside outer cur' rest
          | None => None
          end
      | "?"%char :: rest =>
          match questionMark cur with
          | Some cur' => parse Outside outer cur' rest
          | None => None
          end
      | "^"%char :: rest => parse Outside outer (push (Closed LineStart) cur) rest
      | "$"%char :: rest => parse Outside outer (push (Closed LineEnd) cur) rest
      | "."%char :: rest => parse Outside outer (push (Atom Dot) cur) rest
      | "["%char :: rest =>
          match rest with
          | "^"%char :: rest' => parse (Inside true []) outer cur rest'
          | _ => parse (Inside false []) outer cur rest
          end
      | "\"%char :: rest =>
          match rest with
          | c :: rest' =>
              match escape c with
              | Some x => parse Outside outer (push x cur) rest'
              | None => None
              end
          | [] => None
          end
      | "{"%char :: rest => parse (Lower None) outer cur rest
      | "]"%char :: _ | "}"%char :: _ => None
      | c :: rest => parse Outside outer (push (Atom (Char c)) cur) rest
      end
  end.

(** [new RegExp(pattern, 'u')] on the fragment: [Some r] is the regular
    expression the constructor returns; [None] says nothing about what the
    constructor does. *)
Definition new (pattern : string) : option t :=
  parse Outside [] emptyFrame (list_ascii_of_string pattern).

End RegExp.


(** ** The syntax tree

    The nodes of [TSESTree] that the rule tells apart, and those needed to
    write the programs it is run on.  Every node carries its [range]; the
    other fields are the child relations of its kind. *)
Definition Range : Type := nat * nat.

Module TSESTree.

#[warnings="-register-all"] Inductive Node : Type :=
| Program (range : Range) (body : list Node)
| ExpressionStatement (range : Range) (expression : Node)
| BlockStatement (range : Range) (body : list Node)
| ReturnStatement (range : Range) (argument : option Node)
| VariableDeclaration (range : Range) (declarations : list Node)
| VariableDeclarator (range : Range) (id : Node) (init : option Node)
| FunctionDeclaration (range : Range) (id : Node) (params : list Node) (body : Node)
| ClassDeclaration (range : Range) (id : Node) (superClass : option Node) (body : Node)
| ClassBody (range : Range) (body : list Node)
| PropertyDefinition (range : Range) (key : Node) (value : option Node)
| ImportDeclaration (range : Range) (specifiers : list Node) (source : Node)
| ImportSpecifier (range : Range) (imported local : Node)
| ImportDefaultSpecifier (range : Range) (local : Node)
| ImportNamespaceSpecifier (range : Range) (local : Node)
| Identifier (range : Range) (name : string)
| PrivateIdentifier (range : Range) (name : string)
| Literal (range : Range) (raw : string)
| MemberExpression (range : Range) (object property : Node)
| CallExpression (range : Range) (callee : Node) (arguments : list Node)
| NewExpression (range : Range) (callee : Node) (arguments : list Node)
| AssignmentExpression (range : Range) (left right : Node)
| BinaryExpression (range : Range) (left right : Node)
| ObjectExpression (range : Range) (properties : list Node)
| Property (range : Range) (key value : Node) (shorthand : bool)
| ObjectPattern (range : Range) (properties : list Node)
| ArrayPattern (range : Range) (elements : list Node)
| AssignmentPattern (range : Range) (left right : Node)
| RestElement (range : Range) (argument : Node).

End TSESTree.

(** The [type] tags, strings as in the host. *)
Module AST_NODE_TYPES.
Definition Program := "Program".
Definition ExpressionStatement := "ExpressionStatement".
Definition BlockStatement := "BlockStatement".
Definition ReturnStatement := "ReturnStatement".
Definition VariableDeclaration := "VariableDeclaration".
Definition VariableDeclarator := "VariableDeclarator".
Definition FunctionDeclaration := "FunctionDeclaration".
Definition ClassDeclaration := "ClassDeclaration".
Definition ClassBody := "ClassBody".
Definition PropertyDefinition := "PropertyDefinition".
Definition ImportDeclaration := "ImportDeclaration".
Definition ImportSpecifier := "ImportSpecifier".
Definition ImportDefaultSpecifier := "ImportDefaultSpecifier".
Definition ImportNamespaceSpecifier := "ImportNamespaceSpecifier".
Definition Identifier := "Identifier".
Definition PrivateIdentifier := "PrivateIdentifier".
Definition Literal := "Literal".
Definition MemberExpression := "MemberExpression".
Definition CallExpression := "CallExpression".
Definition NewExpression := "NewExpression".
Definition AssignmentExpression := "AssignmentExpression".
Definition BinaryExpression := "BinaryExpression".
Definition ObjectExpression := "ObjectExpression".
Definition Property := "Property".
Definition ObjectPattern := "ObjectPattern".
Definition ArrayPattern := "ArrayPattern".
Definition AssignmentPattern := "AssignmentPattern".
Definition RestElement := "RestElement".
End AST_NODE_TYPES.

(** *** Fields of a node

    [type] and [range] are present on every node.  The other accessors
    answer [None] where the kind has no such field, which is what the
    source's [in] tests ask. *)
Module Node.
Import TSESTree.

Definition type (n : Node) : string :=
  match n with
  | Program _ _ => AST_NODE_TYPES.Program
  | ExpressionStatement _ _ => AST_NODE_TYPES.ExpressionStatement
  | BlockStatement _ _ => AST_NODE_TYPES.BlockStatement
  | ReturnStatement _ _ => AST_NODE_TYPES.ReturnStatement
  | VariableDeclaration _ _ => AST_NODE_TYPES.VariableDeclaration
  | VariableDeclarator _ _ _ => AST_NODE_TYPES.VariableDeclarator
  | FunctionDeclaration _ _ _ _ => AST_NODE_TYPES.FunctionDeclaration
  | ClassDeclaration _ _ _ _ => AST_NODE_TYPES.ClassDeclaration
  | ClassBody _ _ => AST_NODE_TYPES.ClassBody
  | PropertyDefinition _ _ _ => AST_NODE_TYPES.PropertyDefinition
  | ImportDeclaration _ _ _ => AST_NODE_TYPES.ImportDeclaration
  | ImportSpecifier _ _ _ => AST_NODE_TYPES.ImportSpecifier
  | ImportDefaultSpecifier _ _ => AST_NODE_TYPES.ImportDefaultSpecifier
  | ImportNamespaceSpecifier _ _ => AST_NODE_TYPES.ImportNamespaceSpecifier
  | Identifier _ _ => AST_NODE_TYPES.Identifier
  | PrivateIdentifier _ _ => AST_NODE_TYPES.PrivateIdentifier
  | Literal _ _ => AST_NODE_TYPES.Literal
  | MemberExpression _ _ _ => AST_NODE_TYPES.MemberExpression
  | CallExpression _ _ _ => AST_NODE_TYPES.CallExpression
  | NewExpression _ _ _ => AST_NODE_TYPES.NewExpression
  | AssignmentExpression _ _ _ => AST_NODE_TYPES.AssignmentExpression
  | BinaryExpression _ _ _ => AST_NODE_TYPES.BinaryExpression
  | ObjectExpression _ _ => AST_NODE_TYPES.ObjectExpression
  | Property _ _ _ _ => AST_NODE_TYPES.Property
  | ObjectPattern _ _ => AST_NODE_TYPES.ObjectPattern
  | ArrayPattern _ _ => AST_NODE_TYPES.ArrayPattern
  | AssignmentPattern _ _ _ => AST_NODE_TYPES.AssignmentPattern
  | RestElement _ _ => AST_NODE_TYPES.RestElement
  end.

Definition range (n : Node) : Range :=
  match n with
  | Program r _ | ExpressionStatement r _ | BlockStatement r _
  | ReturnStatement r _ | VariableDeclaration r _ | VariableDeclarator r _ _
  | FunctionDeclaration r _ _ _ | ClassDeclaration r _ _ _ | ClassBody r _
  | PropertyDefinition r _ _ | ImportDeclaration r _ _ | ImportSpecifier r _ _
  | ImportDefaultSpecifier r _ | ImportNamespaceSpecifier r _
  | Identifier r _ | PrivateIdentifier r _ | Literal r _
  | MemberExpression r _ _ | CallExpression r _ _ | NewExpression r _ _
  | AssignmentExpression r _ _ | BinaryExpression r _ _
  | ObjectExpression r _ | Property r _ _ _ | ObjectPattern r _
  | ArrayPattern r _ | AssignmentPattern r _ _ | RestElement r _ => r
  end.

Definition name (n : Node) : option string :=
  match n with
  | Identifier _ x | PrivateIdentifier _ x => Some x
  | _ => None
  end.

Definition object (n : Node) : option Node :=
  match n with MemberExpression _ o _ => Some o | _ => None end.

Definition property (n : Node) : option Node :=
  match n with MemberExpression _ _ p => Some p | _ => None end.

Definition left (n : Node) : option Node :=
  match n with
  | AssignmentExpression _ l _ | BinaryExpression _ l _
  | AssignmentPattern _ l _ => Some l
  | _ => None
  end.

Definition right (n : Node) : option Node :=
  match n with
  | AssignmentExpression _ _ r | BinaryExpression _ _ r
  | AssignmentPattern _ _ r => Some r
  | _ => None
  end.

Definition key (n : Node) : option Node :=
  match n with
  | Property _ k _ _ | PropertyDefinition _ k _ => Some k
  | _ => None
  end.

(** [value] of a class field without initializer is [null]: no node. *)
Definition value (n : Node) : option Node :=
  match n with
  | Property _ _ v _ => Some v
  | PropertyDefinition _ _ v => v
  | _ => None
  end.

Definition shorthand (n : Node) : option bool :=
  match n with Property _ _ _ b => Some b | _ => None end.

Definition local (n : Node) : option Node :=
  match n with
  | ImportSpecifier _ _ l | ImportDefaultSpecifier _ l
  | ImportNamespaceSpecifier _ l => Some l
  | _ => None
  end.

End Node.

(** *** Nodes with their [parent] link

    The host sets [parent] on every node before it calls a visitor.  A node
    of the tree is held with the chain of its ancestors, nearest first, each
    with the field (and, in an array field, the index) under which the node
    below it hangs. *)
Inductive Slot : Type :=
| Field (field : string)
| Element (field : string) (index : nat).

Global Instance Slot_eq_dec : EqDecision Slot.
Proof. solve_decision. Defined.

Record Linked : Type := link {
  self :> TSESTree.Node;
  above : list (Slot * TSESTree.Node)
}.

(** [node.parent]; [None] at the root. *)
Definition parentOf (node : Linked) : option Linked :=
  match above node with
  | [] => None
  | (_, p) :: up => Some (link p up)
  end.

(** [parent.field === node], for a [node] whose parent is [parent]: two
    children of one node are the same object exactly when they hang under
    the same field. *)
Definition isChild (field : string) (node : Linked) : bool :=
  match above node with
  | [] => false
  | (slot, _) :: _ => bool_decide (slot = Field field)
  end.

(** The host's walk: depth first, a node before its children, the children
    in the order of the visitor keys. *)
Section Traverse.
Import TSESTree.

Fixpoint traverse (above : list (Slot * Node)) (n : Node) {struct n}
    : list Linked :=
  let one (field : string) (child : Node) :=
    traverse ((Field field, n) :: above) child in
  let opt (field : string) (child : option Node) :=
    match child with
    | Some child => traverse ((Field field, n) :: above) child
    | None => []
    end in
  let all (field : string) (children : list Node) :=
    (fix each (i : nat) (children : list Node) {struct children} :=
       match children with
       | [] => []
       | child :: rest =>
           traverse ((Element field i, n) :: above) child ++ each (S i) rest
       end) 0 children in
  link n above ::
  match n with
  | Program _ body => all "body" body
  | ExpressionStatement _ expression => one "expression" expression
  | BlockStatement _ body => all "body" body
  | ReturnStatement _ argument => opt "argument" argument
  | VariableDeclaration _ declarations => all "declarations" declarations
  | VariableDeclarator _ id init => one "id" id ++ opt "init" init
  | FunctionDeclaration _ id params body =>
      one "id" id ++ all "params" params ++ one "body" body
  | ClassDeclaration _ id superClass body =>
      one "id" id ++ opt "superClass" superClass ++ one "body" body
  | ClassBody _ body => all "body" body
  | PropertyDefinition _ key value => one "key" key ++ opt "value" value
  | ImportDeclaration _ specifiers source =>
      all "specifiers" specifiers ++ one "source" source
  | ImportSpecifier _ imported local => one "imported" imported ++ one "local" local
  | ImportDefaultSpecifier _ local => one "local" local
  | ImportNamespaceSpecifier _ local => one "local" local
  | Identifier _ _ | PrivateIdentifier _ _ | Literal _ _ => []
  | MemberExpression _ object property => one "object" object ++ one "property" property
  | CallExpression _ callee arguments => one "callee" callee ++ all "arguments" arguments
  | NewExpression _ callee arguments => one "callee" callee ++ all "arguments" arguments
  | AssignmentExpression _ lhs rhs => one "left" lhs ++ one "right" rhs
  | BinaryExpression _ lhs rhs => one "left" lhs ++ one "right" rhs
  | ObjectExpression _ properties => all "properties" properties
  | Property _ key value _ => one "key" key ++ one "value" value
  | ObjectPattern _ properties => all "properties" properties
  | ArrayPattern _ elements => all "elements" elements
  | AssignmentPattern _ lhs rhs => one "left" lhs ++ one "right" rhs
  | RestElement _ argument => one "argument" argument
  end.

End Traverse.

(** ** The rule *)

(** [a === b] on values that may be [undefined], read as [None]. *)
Definition strictEq {A : Type} `{EqDecision A} (a b : A) : bool :=
  bool_decide (a = b).
Infix "===" := strictEq (at level 70, no associativity).

(** [field in node], and the truthiness of a field that holds a node. *)
Definition isSome {A : Type} (x : option A) : bool :=
  match x with Some _ => true | None => false end.

(** Truthiness of a string that may be absent. *)
Definition truthy (x : option string) : bool :=
  match x with
  | Some s => negb (s === "")
  | None => false
  end.

(** [Boolean(x)] of an optional flag. *)
Definition Boolean (x : option bool) : bool := default false x.

Module Options.
Record t : Type := make {
  classFields : option bool;
  ignoreDestructuring : option bool;
  ignoreNamedImports : option bool;
  onlyDeclarations : option bool;
  properties : option bool
}.
End Options.

Definition defaultOptions : Options.t :=
  Options.make (Some false) (Some false) (Some false) (Some false) (Some false).

Inductive MessageIds : Type := notMatch | notMatchPrivate.

(** [meta.messages], with the placeholders filled in as the host does. *)
Definition messages (id : MessageIds) (name pattern : string) : string :=
  match id with
  | notMatch =>
      "Identifier '" +:+ name +:+ "' does not match the pattern '" +:+ pattern +:+ "'."
  | notMatchPrivate =>
      "Identifier '#" +:+ name +:+ "' does not match the pattern '" +:+ pattern +:+ "'."
  end.

(** What [context.report] receives. *)
Record Descriptor : Type := descriptor {
  data_name : string;
  data_pattern : string;
  messageId : MessageIds;
  node : Linked
}.

Definition message (d : Descriptor) : string :=
  messages (messageId d) (data_name d) (data_pattern d).

(** The mutable part of one run: the set [reportedNodes] of the closure and
    what the host's sink has received, oldest first. *)
Record State : Type := state {
  reportedNodes : gset string;
  reported : list Descriptor
}.

Definition initial : State := state ∅ [].

(** [range.toString()] of a two-element array of numbers. *)
Definition toString (r : Range) : string :=
  pretty (fst r) +:+ "," +:+ pretty (snd r).

(** *** Statements

    A statement runs on the state and completes normally, by [return], or
    by throwing. *)
Inductive Completion : Type :=
| Normal
| Return
| Throw (message : string).

Definition Stmt : Type := State → State * Completion.

Declare Scope stmt_scope.
Delimit Scope stmt_scope with stmt.
Bind Scope stmt_scope with Stmt.

Definition skip : Stmt := λ st, (st, Normal).
Definition return_ : Stmt := λ st, (st, Return).
Definition throw (message : string) : Stmt := λ st, (st, Throw message).

Definition andThen (a b : Stmt) : Stmt :=
  λ st, match a st with
        | (st', Normal) => b st'
        | stopped => stopped
        end.

Definition when (c : bool) (a : Stmt) : Stmt := if c then a else skip.

(** A call of a function with body [body]: [return] ends the call only. *)
Definition call (body : Stmt) : Stmt :=
  λ st, match body st with
        | (st', Return) => (st', Normal)
        | done => done
        end.

Notation "a ;; b" := (andThen a%stmt b%stmt)
  (at level 100, b at level 200, right associativity) : stmt_scope.

(** The constants of the closure that [create] builds. *)
Record Rule : Type := rule {
  pattern : string;
  regexp : RegExp.t;
  checkProperties : bool;
  checkClassFields : bool;
  onlyDeclarations : bool;
  ignoreDestructuring : bool;
  ignoreNamedImports : bool
}.

Definition ALLOWED_PARENT_TYPES : gset string :=
  {[ "CallExpression"; "NewExpression" ]}.

Definition DECLARATION_TYPES : gset string :=
  {[ "FunctionDeclaration"; "VariableDeclarator" ]}.

Definition IMPORT_TYPES : gset string :=
  {[ "ImportSpecifier"; "ImportNamespaceSpecifier"; "ImportDefaultSpecifier" ]}.

(** [set.has(x)] *)
Definition Set_has (set : gset string) (x : string) : bool :=
  bool_decide (x ∈ set).

Fixpoint isInsideObjectPattern_loop (parents : list (Slot * TSESTree.Node)) : bool :=
  match parents with
  | [] => false
  | (_, parent) :: up =>
      if Node.type parent === AST_NODE_TYPES.ObjectPattern then true
      else isInsideObjectPattern_loop up
  end.

(** Checks if a parent of a node is an ObjectPattern. *)
Definition isInsideObjectPattern (node : Linked) : bool :=
  isInsideObjectPattern_loop (above node).

Section Create.
Variable this : Rule.

Definition isInvalid (name : string) : bool :=
  negb (RegExp.test (regexp this) name).

Definition shouldReport (effectiveParent : Linked) (name : string) : bool :=
  (negb (onlyDeclarations this)
   || Set_has DECLARATION_TYPES (Node.type effectiveParent))
  && negb (Set_has ALLOWED_PARENT_TYPES (Node.type effectiveParent))
  && isInvalid name.

Definition report (node : Linked) : Stmt :=
  λ st,
    if negb (bool_decide (toString (Node.range node) ∈ reportedNodes st)) then
      let messageId :=
        if Node.type node === AST_NODE_TYPES.PrivateIdentifier
        then notMatchPrivate
        else notMatch in
      (state ({[ toString (Node.range node) ]} ∪ reportedNodes st)
             (reported st ++
              [descriptor (default "" (Node.name node)) (pattern this) messageId node]),
       Normal)
    else (st, Normal).

(** The visitor.  The host calls it on nodes of type [Identifier], which
    all have a [name]; on a node without one it is given nothing to do. *)
Definition Identifier (node : Linked) : Stmt :=
  call
    match Node.name node with
    | None => skip
    | Some name =>
    match parentOf node with
    | None => return_
    | Some parent =>
    let effectiveParent :=
      if Node.type parent === AST_NODE_TYPES.MemberExpression
      then parentOf parent
      else Some parent in
    match effectiveParent with
    | None => return_
    | Some effectiveParent =>
    if Node.type parent === AST_NODE_TYPES.MemberExpression then
      when (negb (checkProperties this)) return_ ;;
      if ((Node.type <$> Node.object parent) === Some AST_NODE_TYPES.Identifier)
         && ((Node.object parent ≫= Node.name) === Some name)
      then
        when (isInvalid name) (report node)
      else if (Node.type effectiveParent === AST_NODE_TYPES.AssignmentExpression)
              && ((Node.type <$> Node.left effectiveParent)
                  === Some AST_NODE_TYPES.MemberExpression)
              && ((Node.type <$> (Node.left effectiveParent ≫= Node.property))
                  === Some AST_NODE_TYPES.Identifier)
              && (((Node.left effectiveParent ≫= Node.property) ≫= Node.name)
                  === Node.name node)
      then
        when (isInvalid name) (report node)
      else
        when ((Node.type effectiveParent === AST_NODE_TYPES.AssignmentExpression)
              && negb ((Node.type <$> Node.right effectiveParent)
                       === Some AST_NODE_TYPES.MemberExpression)
              && isInvalid name)
             (report node)
    else if (Node.type parent === AST_NODE_TYPES.Property)
            || (Node.type parent === AST_NODE_TYPES.AssignmentPattern) then
      when (((λ p : Linked, Node.type p) <$> parentOf parent)
            === Some AST_NODE_TYPES.ObjectPattern)
           (when (negb (ignoreDestructuring this)
                  && isSome (Node.shorthand parent)
                  && Boolean (Node.shorthand parent)
                  && isSome (Node.value parent ≫= Node.left)
                  && isSome (Node.value parent ≫= Node.left)
                  && isInvalid name)
                 (report node) ;;
            when (negb (isSome (Node.key parent))) (throw "OK") ;;
            let assignmentKeyEqualsValue :=
              isSome (Node.value parent ≫= Node.name)
              && isSome (Node.key parent ≫= Node.name)
              && ((Node.key parent ≫= Node.name)
                  === (Node.value parent ≫= Node.name)) in
            when (negb assignmentKeyEqualsValue && isChild "key" node) return_ ;;
            let valueIsInvalid :=
              isSome (Node.value parent ≫= Node.name)
              && truthy (Node.value parent ≫= Node.name)
              && isInvalid name in
            when (valueIsInvalid
                  && negb (assignmentKeyEqualsValue && ignoreDestructuring this))
                 (report node)) ;;
      when (negb (checkProperties this)
            || (ignoreDestructuring this && isInsideObjectPattern node))
           return_ ;;
      when ((negb (isSome (Node.right parent)) || negb (isChild "right" node))
            && shouldReport effectiveParent name)
           (report node)
    else if Set_has IMPORT_TYPES (Node.type parent) then
      if ignoreNamedImports this
         && (Node.type parent === AST_NODE_TYPES.ImportSpecifier)
      then skip
      else
        when (isSome (Node.local parent)
              && ((Node.local parent ≫= Node.name) === Node.name node)
              && isInvalid name)
             (report node)
    else if Node.type parent === AST_NODE_TYPES.PropertyDefinition then
      when (checkClassFields this && isInvalid name) (report node)
    else
      when (shouldReport effectiveParent name) (report node)
    end
    end
    end.

End Create.

(** [create(context, [inputPattern, options])]: the closure.  [None] says
    that [RegExp.new] does not read the pattern: either the constructor
    throws, and so does [create], or the pattern is outside the fragment,
    and the closure is not described. *)
Definition create (inputPattern : option string) (options : option Options.t)
    : option Rule :=
  let pattern := default "^.+$" inputPattern in
  regexp ← RegExp.new pattern;
  Some (rule pattern regexp
             (Boolean (options ≫= Options.properties))
             (Boolean (options ≫= Options.classFields))
             (Boolean (options ≫= Options.onlyDeclarations))
             (Boolean (options ≫= Options.ignoreDestructuring))
             (Boolean (options ≫= Options.ignoreNamedImports))).

(** ** The host

    The visitor map of the rule has the single key [Identifier]: the host
    calls it on entering a node of that type and calls nothing on any other
    node.  An exception thrown by a visitor ends the walk. *)
Definition enter (this : Rule) (node : Linked) : Stmt :=
  if Node.type node === AST_NODE_TYPES.Identifier
  then Identifier this node
  else skip.

Fixpoint walk (this : Rule) (nodes : list Linked) : Stmt :=
  match nodes with
  | [] => skip
  | node :: rest => (enter this node ;; walk this rest)%stmt
  end.

(** One run of the rule on one tree, from a fresh [reportedNodes]. *)
Definition lint (this : Rule) (ast : TSESTree.Node) : State * Completion :=
  walk this (traverse [] ast) initial.

(** [validate(tree, pattern, config)]: the diagnostics the sink has
    received when the run ends, by the end of the walk or by an
    exception. *)
Definition validate (this : Rule) (ast : TSESTree.Node) : list Descriptor :=
  reported (fst (lint this ast)).

(** ** Programs *)
Module Programs.
Import TSESTree.

(** [const { bad_name } = obj;] *)
Definition destructure_shorthand : Node :=
  Program (0, 25)
    [VariableDeclaration (0, 25)
       [VariableDeclarator (6, 24)
          (ObjectPattern (6, 18)
             [Property (8, 16)
                (Identifier (8, 16) "bad_name")
                (Identifier (8, 16) "bad_name") true])
          (Some (Identifier (21, 24) "obj"))]].

(** [const { bad_name = 1 } = obj;] *)
Definition destructure_default : Node :=
  Program (0, 29)
    [VariableDeclaration (0, 29)
       [VariableDeclarator (6, 28)
          (ObjectPattern (6, 22)
             [Property (8, 20)
                (Identifier (8, 16) "bad_name")
                (AssignmentPattern (8, 20)
                   (Identifier (8, 16) "bad_name")
                   (Literal (19, 20) "1"))
                true])
          (Some (Identifier (25, 28) "obj"))]].

(** [obj.bad_name;] *)
Definition member_read : Node :=
  Program (0, 13)
    [ExpressionStatement (0, 13)
       (MemberExpression (0, 12)
          (Identifier (0, 3) "obj") (Identifier (4, 12) "bad_name"))].

(** [obj.bad_name = 1;] *)
Definition member_write : Node :=
  Program (0, 17)
    [ExpressionStatement (0, 17)
       (AssignmentExpression (0, 16)
          (MemberExpression (0, 12)
             (Identifier (0, 3) "obj") (Identifier (4, 12) "bad_name"))
          (Literal (15, 16) "1"))].

(** [foo(bad_name);] *)
Definition call_argument : Node :=
  Program (0, 14)
    [ExpressionStatement (0, 14)
       (CallExpression (0, 13)
          (Identifier (0, 3) "foo") [Identifier (4, 12) "bad_name"])].

(** [const bad_name = 1; use(bad_name);] *)
Definition declare_then_use : Node :=
  Program (0, 34)
    [VariableDeclaration (0, 19)
       [VariableDeclarator (6, 18)
          (Identifier (6, 14) "bad_name") (Some (Literal (17, 18) "1"))];
     ExpressionStatement (20, 34)
       (CallExpression (20, 33)
          (Identifier (20, 23) "use") [Identifier (24, 32) "bad_name"])].

(** [import { bad_name } from 'x';] *)
Definition import_named : Node :=
  Program (0, 29)
    [ImportDeclaration (0, 29)
       [ImportSpecifier (9, 17)
          (Identifier (9, 17) "bad_name") (Identifier (9, 17) "bad_name")]
       (Literal (25, 28) "'x'")].

(** [import bad_name from 'x';] *)
Definition import_default : Node :=
  Program (0, 25)
    [ImportDeclaration (0, 25)
       [ImportDefaultSpecifier (7, 15) (Identifier (7, 15) "bad_name")]
       (Literal (21, 24) "'x'")].

(** [class a { #bad_name = 1; }] *)
Definition private_field : Node :=
  Program (0, 26)
    [ClassDeclaration (0, 26) (Identifier (6, 7) "a") None
       (ClassBody (8, 26)
          [PropertyDefinition (10, 24)
             (PrivateIdentifier (10, 19) "bad_name")
             (Some (Literal (22, 23) "1"))])].

(** [class a { bad_name = 1; }] *)
Definition public_field : Node :=
  Program (0, 25)
    [ClassDeclaration (0, 25) (Identifier (6, 7) "a") None
       (ClassBody (8, 25)
          [PropertyDefinition (10, 23)
             (Identifier (10, 18) "bad_name")
             (Some (Literal (21, 22) "1"))])].

(** [new Foo(bad_name);] *)
Definition new_argument : Node :=
  Program (0, 18)
    [ExpressionStatement (0, 18)
       (NewExpression (0, 17)
          (Identifier (4, 7) "Foo") [Identifier (8, 16) "bad_name"])].

(** [bad_name;] *)
Definition bare_reference : Node :=
  Program (0, 9)
    [ExpressionStatement (0, 9) (Identifier (0, 8) "bad_name")].

(** [import { bad_name as good } from 'x';] *)
Definition import_renamed : Node :=
  Program (0, 37)
    [ImportDeclaration (0, 37)
       [ImportSpecifier (9, 25)
          (Identifier (9, 17) "bad_name") (Identifier (21, 25) "good")]
       (Literal (33, 36) "'x'")].

(** [import { bad_name as bad_name } from 'x';] *)
Definition import_same_name : Node :=
  Program (0, 41)
    [ImportDeclaration (0, 41)
       [ImportSpecifier (9, 29)
          (Identifier (9, 17) "bad_name") (Identifier (21, 29) "bad_name")]
       (Literal (37, 40) "'x'")].

(** [bad_name; other_bad;] *)
Definition two_references : Node :=
  Program (0, 20)
    [ExpressionStatement (0, 9) (Identifier (0, 8) "bad_name");
     ExpressionStatement (10, 20) (Identifier (10, 19) "other_bad")].

End Programs.

(** ** What a match is

    [Matches s r i j]: the text [s] read from index [i] to index [j] is in
    the language of [r], the assertions being judged at their index. *)
Module RegExpSemantics.
Import RegExp.

Inductive Matches (s : list ascii) : RegExp.t → nat → nat → Prop :=
| M_Empty i : Matches s Empty i i
| M_Char c i : s !! i = Some c → Matches s (Char c) i (S i)
| M_Dot c i :
    s !! i = Some c → isLineTerminator c = false → Matches s Dot i (S i)
| M_Class negated ranges c i :
    s !! i = Some c → inClass negated ranges c = true →
    Matches s (Class negated ranges) i (S i)
| M_LineStart : Matches s LineStart 0 0
| M_LineEnd : Matches s LineEnd (length s) (length s)
| M_WordBoundary i :
    atWordBoundary s i = true → Matches s WordBoundary i i
| M_NotWordBoundary i :
    atWordBoundary s i = false → Matches s NotWordBoundary i i
| M_Seq r1 r2 i j k :
    Matches s r1 i j → Matches s r2 j k → Matches s (Seq r1 r2) i k
| M_AltL r1 r2 i j : Matches s r1 i j → Matches s (Alt r1 r2) i j
| M_AltR r1 r2 i j : Matches s r2 i j → Matches s (Alt r1 r2) i j
| M_Star0 r i : Matches s (Star r) i i
| M_StarS r i j k :
    Matches s r i j → Matches s (Star r) j k → Matches s (Star r) i k.



(** The regular expression of the default pattern ["^.+$"]. *)
Definition anything : RegExp.t := Seq LineStart (Seq (Plus Dot) LineEnd).

Definition hasLineTerminator (name : string) : bool :=
  existsb isLineTerminator (list_ascii_of_string name).

End RegExpSemantics.


(** ** Configurations *)
Module Config.
Definition lowercase : string := "^[a-z]+$".

(** [new RegExp("^[a-z]+$", "u")] *)
Definition lowercaseRegExp : RegExp.t :=
  RegExp.Seq RegExp.LineStart
    (RegExp.Seq (RegExp.Plus (RegExp.Class false [("a", "z")%char]))
                RegExp.LineEnd).

Definition none : Options.t := Options.make None None None None None.
Definition classFields : Options.t :=
  Options.make (Some true) None None None None.
Definition ignoreDestructuring : Options.t :=
  Options.make None (Some true) None None None.
Definition ignoreNamedImports : Options.t :=
  Options.make None None (Some true) None None.
Definition onlyDeclarations : Options.t :=
  Options.make None None None (Some true) None.
Definition properties : Options.t :=
  Options.make None None None None (Some true).

(** The closure [create] builds for ["^[a-z]+$"] and the options [o]. *)
Definition closure (o : Options.t) : Rule :=
  rule lowercase lowercaseRegExp
       (Boolean (Options.properties o))
       (Boolean (Options.classFields o))
       (Boolean (Options.onlyDeclarations o))
       (Boolean (Options.ignoreDestructuring o))
       (Boolean (Options.ignoreNamedImports o)).
End Config.

(** The [k]-th node the host enters in [ast]. *)
Definition entered (ast : TSESTree.Node) (k : nat) : Linked :=
  default (link ast []) (traverse [] ast !! k).

(** What the host delivers for one run: the message and the range of each
    diagnostic.  An exception thrown by a visitor is thrown again by the
    host, which then delivers no diagnostic: the result is [None], as it is
    when [create] gives no closure. *)
Definition verify (inputPattern : option string) (options : option Options.t)
    (ast : TSESTree.Node) : option (list (string * Range)) :=
  this ← create inputPattern options;
  match lint this ast with
  | (st, Throw _) => None
  | (st, _) => Some (map (λ d, (message d, Node.range (node d))) (reported st))
  end.

(** The shape of tree on which the visitor throws: the parent is an object
    entry directly under an object pattern and has no [key]. *)
Definition lacksKey (node : Linked) : bool :=
  match parentOf node with
  | Some parent =>
      ((Node.type parent === AST_NODE_TYPES.Property)
       || (Node.type parent === AST_NODE_TYPES.AssignmentPattern))
      && (((λ p : Linked, Node.type p) <$> parentOf parent)
          === Some AST_NODE_TYPES.ObjectPattern)
      && negb (isSome (Node.key parent))
  | None => false
  end.

(** A statement that does not throw. *)
Definition NoThrow (s : Stmt) : Prop :=
  ∀ st, snd (s st) = Normal ∨ snd (s st) = Return.

(** ** Properties of statements *)

(** A statement that leaves the state as it was. *)
Definition Silent (s : Stmt) : Prop := ∀ st, fst (s st) = st.

(** A statement that keeps a property of the state. *)
Definition Preserves (P : State → Prop) (s : Stmt) : Prop :=
  ∀ st, P st → P (fst (s st)).

Definition rangeKey (d : Descriptor) : string :=
  toString (Node.range (node d)).

(** No two diagnostics have the same range key, and the key of every
    diagnostic is in the set. *)
Definition Deduplicated (st : State) : Prop :=
  NoDup (map rangeKey (reported st))
  ∧ ∀ d, d ∈ reported st → rangeKey d ∈ reportedNodes st.

(** Every diagnostic has the ordinary message. *)
Definition Ordinary (st : State) : Prop :=
  Forall (λ d, messageId d = notMatch) (reported st).


(** ** Verdicts

    [Verdict this node fires c s]: on every state the statement [s] does
    what one [report node] does when [fires], nothing otherwise, and
    completes with [c]. *)
Definition Verdict (this : Rule) (node : Linked) (fires : bool)
    (c : Completion) (s : Stmt) : Prop :=
  ∀ st, s st = (if fires then fst (report this node st) else st, c).

(** [Below this node s s']: the two statements complete alike, and [s']
    reports the node whenever [s] does. *)
Definition Below (this : Rule) (node : Linked) (s s' : Stmt) : Prop :=
  ∃ fires fires' c,
    (fires = true → fires' = true)
    ∧ Verdict this node fires c s
    ∧ Verdict this node fires' c s'.

(** [Looser this this']: the same pattern, and every option of [this'] set
    the way that checks more: what [this] checks, [this'] checks, and what
    [this'] ignores, [this] ignores. *)
Definition Looser (this this' : Rule) : Prop :=
  pattern this = pattern this'
  ∧ regexp this = regexp this'
  ∧ (checkProperties this = true → checkProperties this' = true)
  ∧ (checkClassFields this = true → checkClassFields this' = true)
  ∧ (onlyDeclarations this' = true → onlyDeclarations this = true)
  ∧ (ignoreDestructuring this' = true → ignoreDestructuring this = true)
  ∧ (ignoreNamedImports this' = true → ignoreNamedImports this = true).

(** [Flagged this node]: called on [node] alone, with a fresh set, the host
    gets a diagnostic from the rule. *)
Definition Flagged (this : Rule) (node : Linked) : Prop :=
  reported (fst (enter this node initial)) ≠ [].

(** What a diagnostic of a run of [this] over [nodes] has to be. *)
Definition Justified (this : Rule) (nodes : list Linked) (d : Descriptor) : Prop :=
  node d ∈ nodes
  ∧ Node.type (node d) = AST_NODE_TYPES.Identifier
  ∧ Node.name (node d) = Some (data_name d)
  ∧ isInvalid this (data_name d) = true
  ∧ data_pattern d = pattern this
  ∧ messageId d = notMatch.

(** ** The [no-export-all] rule *)
Module NoExportAll.

(** What the rule reads of the value of [ExportMap.get]: the keys of the two
    maps [namespace] and [reexports], in the order the maps iterate. *)
Record ExportMap : Type := mkExportMap {
  namespace : list string;
  reexports : list string
}.

(** [TSESTree.ExportAllDeclaration]: [exported] is the name after [as], when
    there is one; [source] is [node.source.value]. *)
Record ExportAllDeclaration : Type := exportAll {
  range : Range;
  exported : option string;
  source : string
}.

(** What [fixer.replaceTextRange] returns. *)
Record Fix : Type := replaceTextRange { fix_range : Range; text : string }.

Record Descriptor : Type := descriptor {
  fix_ : Fix;
  messageId : string;
  node : ExportAllDeclaration
}.

(** [array.join(separator)] *)
Definition join (separator : string) (array : list string) : string :=
  String.concat separator array.

Definition exportNames (exportMap : ExportMap) : list string :=
  filter (λ key, key ≠ "default") (namespace exportMap) ++ reexports exportMap.

Section Create.
(** [ExportMap.get(source, context)]; [None] is [null]. *)
Variable ExportMap_get : string → option ExportMap.

(** The visitor, with the list of what it hands to [context.report]. *)
Definition ExportAllDeclaration_ (node : ExportAllDeclaration)
    : list Descriptor :=
  if isSome (exported node) then []
  else
    match ExportMap_get (source node) with
    | None => []
    | Some exportMap =>
        [descriptor
           (replaceTextRange
              (range node)
              ("export { " +:+ join ", " (exportNames exportMap)
               +:+ " } from '" +:+ source node +:+ "';"))
           "noExportAll"
           node]
    end.

End Create.

End NoExportAll.

(** A text without a comma. *)
Fixpoint noComma (s : string) : Prop :=
  match s with
  | EmptyString => True
  | String c rest => c ≠ ","%char ∧ noComma rest
  end.

(** ** The script that inlines the assertions into the README *)
Module Readme.

(** The line feed of ['\n']. *)
Definition LF : string := String (Ascii.ascii_of_nat 10) EmptyString.

(** An entry of [errors]; [message] is absent from an entry that names its
    message by [messageId]. *)
Record Error : Type := error { message : option string }.

Section FormatCodeSnippet.
(** The values [JSON.stringify] is applied to, [JSON.stringify], and the
    test [if (value)] on such a value: [null], [0], [''] and [false] fail
    it. *)
Variable Json : Type.
Variable JSON_stringify : Json → string.
Variable ToBoolean : Json → bool.

(** A test case; a field that is absent is [None], and [errors] is the
    array when it is one. *)
Record Setup : Type := setup {
  options : option Json;
  settings : option Json;
  code : string;
  errors : option (list Error);
  rules : option Json
}.

(** ['// Message: ' + message.message]: an absent [message] is [undefined],
    which [+] writes out as that word. *)
Definition messageLine (e : Error) : string :=
  "// Message: " +:+ default "undefined" (message e).

Definition formatCodeSnippet (s : Setup) : string :=
  let paragraphs := [] in
  let paragraphs :=
    match options s with
    | Some o =>
        if ToBoolean o
        then paragraphs ++ ["// Options: " +:+ JSON_stringify o]
        else paragraphs
    | None => paragraphs
    end in
  let paragraphs :=
    match settings s with
    | Some o =>
        if ToBoolean o
        then paragraphs ++ ["// Settings: " +:+ JSON_stringify o]
        else paragraphs
    | None => paragraphs
    end in
  let paragraphs := paragraphs ++ [code s] in
  let paragraphs :=
    match errors s with
    | Some es => fold_left (λ ps e, ps ++ [messageLine e]) es paragraphs
    | None => paragraphs
    end in
  let paragraphs :=
    match rules s with
    | Some o =>
        if ToBoolean o
        then paragraphs ++ ["// Additional rules: " +:+ JSON_stringify o]
        else paragraphs
    | None => paragraphs
    end in
  String.concat LF paragraphs.

End FormatCodeSnippet.

End Readme.

(** * Facts *)

Module RegExpFacts.
Import RegExp RegExpSemantics.

Lemma step_spec ok s i j :
  j ∈ step ok s i ↔ ∃ c, s !! i = Some c ∧ ok c = true ∧ j = S i.
Proof.
  unfold step. destruct (s !! i) as [c|] eqn:E.
  - destruct (ok c) eqn:O.
    + rewrite list_elem_of_singleton. split; [intros ->; eauto|by intros (? & ? & ? & ->)].
    + split; [intros []%elem_of_nil|]. intros (? & [= <-] & ? & _). congruence.
  - split; [intros []%elem_of_nil|]. intros (? & ? & _). discriminate.
Qed.

Lemma elem_of_flat_map {A B} (f : A → list B) (l : list A) (b : B) :
  b ∈ flat_map f l ↔ ∃ a, a ∈ l ∧ b ∈ f a.
Proof.
  rewrite list_elem_of_In, in_flat_map.
  split; intros (a & ? & ?); exists a; by rewrite ?list_elem_of_In in *.
Qed.

(** A match never moves backwards, and moves forward inside the text only. *)
Lemma Matches_bounds s r i j :
  Matches s r i j → i ≤ j ∧ (i < j → j ≤ length s).
Proof.
  induction 1;
    repeat match goal with
           | H : _ !! _ = Some _ |- _ => apply lookup_lt_Some in H
           end; lia.
Qed.

Lemma iterate_sound s r fuel : ∀ i j,
  (∀ a b, b ∈ ends r s a → Matches s r a b) →
  j ∈ iterate (ends r s) fuel i → Matches s (Star r) i j.
Proof.
  induction fuel as [|fuel IH]; intros i j Hr; simpl.
  - rewrite list_elem_of_singleton. intros ->. constructor.
  - rewrite elem_of_cons, elem_of_flat_map. intros [->|(k & Hk & Hj)].
    + constructor.
    + destruct (Nat.ltb i k); [|by apply elem_of_nil in Hj].
      eapply M_StarS; eauto.
Qed.

Lemma iterate_mono once fuel : ∀ fuel' i j,
  fuel ≤ fuel' → j ∈ iterate once fuel i → j ∈ iterate once fuel' i.
Proof.
  induction fuel as [|fuel IH]; intros fuel' i j Hle; simpl.
  - rewrite list_elem_of_singleton. intros ->. destruct fuel'; simpl; left.
  - destruct fuel' as [|fuel']; [lia|]. simpl.
    rewrite !elem_of_cons, !elem_of_flat_map.
    intros [->|(k & Hk & Hj)]; [by left|]. right. exists k. split; [done|].
    destruct (Nat.ltb i k); [|done]. apply IH; [lia|done].
Qed.

Lemma ends_sound s r : ∀ i j, j ∈ ends r s i → Matches s r i j.
Proof.
  induction r as [|c| |negated ranges| | | | |r1 IH1 r2 IH2|r1 IH1 r2 IH2|r IH];
    intros i j; simpl.
  - rewrite list_elem_of_singleton. intros ->. constructor.
  - rewrite step_spec. intros (d & ? & ->%Ascii.eqb_eq & ->). by constructor.
  - rewrite step_spec. intros (d & ? & ?%negb_true_iff & ->). by econstructor.
  - rewrite step_spec. intros (d & ? & ? & ->). by econstructor.
  - destruct (Nat.eqb_spec i 0) as [->|]; [|by intros ?%elem_of_nil].
    rewrite list_elem_of_singleton. intros ->. constructor.
  - destruct (Nat.eqb_spec i (length s)) as [->|]; [|by intros ?%elem_of_nil].
    rewrite list_elem_of_singleton. intros ->. constructor.
  - destruct (atWordBoundary s i) eqn:E; [|by intros ?%elem_of_nil].
    rewrite list_elem_of_singleton. intros ->. by constructor.
  - destruct (atWordBoundary s i) eqn:E; [by intros ?%elem_of_nil|].
    rewrite list_elem_of_singleton. intros ->. by constructor.
  - rewrite elem_of_flat_map. intros (k & ? & ?). econstructor; eauto.
  - rewrite elem_of_app. intros [?|?]; [apply M_AltL|apply M_AltR]; eauto.
  - apply iterate_sound. exact IH.
Qed.

Lemma ends_complete s r i j : Matches s r i j → j ∈ ends r s i.
Proof.
  induction 1 as [i|c i Hc|c i Hc Hl|negated ranges c i Hc Hin| |
                  |i Hb|i Hb
                  |r1 r2 i j k H1 IH1 H2 IH2|r1 r2 i j H1 IH1|r1 r2 i j H2 IH2
                  |r i|r i j k H1 IH1 H2 IH2]; simpl.
  - left.
  - apply step_spec. exists c. by rewrite Ascii.eqb_refl.
  - apply step_spec. exists c. by rewrite Hl.
  - apply step_spec. by exists c.
  - left.
  - rewrite Nat.eqb_refl. left.
  - rewrite Hb. left.
  - rewrite Hb. left.
  - apply elem_of_flat_map. eauto.
  - apply elem_of_app. by left.
  - apply elem_of_app. by right.
  - destruct (length s - i); left.
  - simpl in IH2. destruct (Matches_bounds _ _ _ _ H1) as [Hle Hin].
    destruct (decide (i = j)) as [->|Hne]; [done|].
    assert (i < j) as Hlt by lia. specialize (Hin Hlt).
    destruct (length s - i) as [|fuel] eqn:E; [lia|]. simpl.
    right. apply elem_of_flat_map. exists j. split; [done|].
    destruct (Nat.ltb_spec i j); [|lia].
    eapply iterate_mono; [|exact IH2]. lia.
Qed.

Lemma ends_spec s r i j : j ∈ ends r s i ↔ Matches s r i j.
Proof. split; [apply ends_sound|apply ends_complete]. Qed.

(** [test] searches: it answers [true] exactly when a match starts at some
    index of the text. *)
Lemma test_spec r name :
  test r name = true ↔
  ∃ i j, i ≤ length (list_ascii_of_string name)
         ∧ Matches (list_ascii_of_string name) r i j.
Proof.
  unfold test. cbv zeta. rewrite existsb_exists. split.
  - intros (i & Hi%in_seq & Hne).
    destruct (ends r _ i) as [|j l] eqn:E; [done|].
    exists i, j. split; [lia|]. apply ends_spec. rewrite E. left.
  - intros (i & j & Hi & Hm%ends_spec). exists i. split.
    + apply in_seq. lia.
    + destruct (ends r _ i); [by apply elem_of_nil in Hm|done].
Qed.


Lemma new_default : RegExp.new "^.+$" = Some anything.
Proof. reflexivity. Qed.

Lemma Star_Dot_rest s : ∀ n i,
  n = length s - i → i ≤ length s →
  (∀ k c, i ≤ k → s !! k = Some c → isLineTerminator c = false) →
  Matches s (Star Dot) i (length s).
Proof.
  induction n as [|n IH]; intros i Hn Hi Hall.
  - replace i with (length s) by lia. constructor.
  - destruct (lookup_lt_is_Some_2 s i) as [c Hc]; [lia|].
    apply M_StarS with (S i).
    + apply M_Dot with c; eauto.
    + apply IH; [lia|lia|]. intros k d ?. apply Hall. lia.
Qed.

Lemma Star_Dot_inv s r i j :
  Matches s r i j → r = Star Dot →
  ∀ k c, i ≤ k < j → s !! k = Some c → isLineTerminator c = false.
Proof.
  induction 1 as [| | | | | | | | | | | |r i j k H1 _ H2 IH2]; try discriminate.
  - intros _ k c ?. lia.
  - intros [= ->] m c Hm Hc. inversion H1; subst.
    destruct (decide (m = i)) as [->|]; [congruence|].
    apply (IH2 eq_refl m c); [lia|done].
Qed.

Lemma hasLineTerminator_false name :
  hasLineTerminator name = false ↔
  ∀ k c, list_ascii_of_string name !! k = Some c → isLineTerminator c = false.
Proof.
  unfold hasLineTerminator. rewrite <- not_true_iff_false, existsb_exists.
  split.
  - intros Hno k c Hk. destruct (isLineTerminator c) eqn:E; [|done].
    destruct Hno. exists c. split; [|done].
    apply list_elem_of_In, list_elem_of_lookup. eauto.
  - intros Hall (c & Hin%list_elem_of_In%list_elem_of_lookup & Hc).
    destruct Hin as [k Hk]. rewrite (Hall k c Hk) in Hc. discriminate.
Qed.

(** The default pattern accepts exactly the non-empty names free of line
    terminators. *)
Lemma test_anything name :
  test anything name = true ↔ name ≠ "" ∧ hasLineTerminator name = false.
Proof.
  rewrite test_spec, hasLineTerminator_false.
  set (s := list_ascii_of_string name).
  assert (name ≠ "" ↔ s ≠ []) as ->.
  { subst s. destruct name; simpl; split; congruence. }
  split.
  - intros (i & j & _ & Hm). unfold anything, Plus in Hm.
    inversion Hm as [| | | | | | | |? ? ? m ? Hs Hrest| | | |]; subst.
    inversion Hs; subst.
    inversion Hrest as [| | | | | | | |? ? ? n ? Hplus Hend| | | |]; subst.
    inversion Hend; subst.
    inversion Hplus as [| | | | | | | |? ? ? p ? Hdot Hstar| | | |]; subst.
    inversion Hdot as [| |c ? Hc Hl| | | | | | | | | |]; subst.
    split; [by destruct s|].
    intros k d Hk. destruct k as [|k]; [congruence|].
    apply (Star_Dot_inv _ _ _ _ Hstar eq_refl (S k) d); [|done].
    apply lookup_lt_Some in Hk. lia.
  - intros [Hne Hall]. exists 0, (length s). split; [lia|].
    destruct s as [|c s'] eqn:E; [done|]. rewrite <- E in *.
    assert (s !! 0 = Some c) as H0 by (by rewrite E).
    apply M_Seq with 0; [constructor|].
    apply M_Seq with (length s); [|constructor].
    apply M_Seq with 1; [apply M_Dot with c; eauto|].
    apply Star_Dot_rest with (length s - 1); [done|rewrite E; simpl; lia|].
    intros k d _. apply Hall.
Qed.

End RegExpFacts.

(** ** Statements that leave the state alone *)
Section Silent.

Lemma Silent_skip : Silent skip.
Proof. by intros st. Qed.

Lemma Silent_return : Silent return_.
Proof. by intros st. Qed.

Lemma Silent_throw message : Silent (throw message).
Proof. by intros st. Qed.

Lemma Silent_andThen a b : Silent a → Silent b → Silent (a ;; b).
Proof.
  intros Ha Hb st. unfold andThen. specialize (Ha st).
  destruct (a st) as [st' []]; simpl in *; subst; auto.
Qed.

Lemma Silent_when c a : (c = true → Silent a) → Silent (when c a).
Proof. destruct c; simpl; auto using Silent_skip. Qed.

Lemma Silent_call body : Silent body → Silent (call body).
Proof.
  intros Hb st. unfold call. specialize (Hb st).
  by destruct (body st) as [st' []].
Qed.

Lemma Silent_if (c : bool) a b :
  (c = true → Silent a) → (c = false → Silent b) →
  Silent (if c then a else b).
Proof. destruct c; auto. Qed.

End Silent.

Create HintDb silent.
#[export] Hint Resolve Silent_skip Silent_return Silent_throw Silent_andThen
  Silent_call : silent.

Lemma strictEq_true {A : Type} `{EqDecision A} (a b : A) :
  (a === b) = true ↔ a = b.
Proof. apply bool_decide_eq_true. Qed.

Lemma strictEq_false {A : Type} `{EqDecision A} (a b : A) :
  (a === b) = false ↔ a ≠ b.
Proof. apply bool_decide_eq_false. Qed.

Lemma strictEq_refl {A : Type} `{EqDecision A} (a : A) : (a === a) = true.
Proof. by apply strictEq_true. Qed.

Lemma strictEq_ne {A : Type} `{EqDecision A} (a b : A) :
  a ≠ b → (a === b) = false.
Proof. apply strictEq_false. Qed.

Lemma shouldReport_valid this effectiveParent name :
  isInvalid this name = false → shouldReport this effectiveParent name = false.
Proof. intros H. unfold shouldReport. rewrite H. apply andb_false_r. Qed.

(** Splits a statement along its control structure; each guard that is left
    is handed to [tac] as an equation. *)
Ltac silent_with tac :=
  repeat first
    [ apply Silent_skip | apply Silent_return | apply Silent_throw
    | apply Silent_call | apply Silent_andThen
    | apply Silent_when; intros ?
    | apply Silent_if; intros ?
    | progress cbv zeta
    | tac ].

Section Soundness.
Variable this : Rule.

Lemma Identifier_valid_Silent (node : Linked) name :
  Node.name node = Some name → isInvalid this name = false →
  Silent (Identifier this node).
Proof.
  intros Hname Hvalid. unfold Identifier. rewrite Hname.
  destruct (parentOf node) as [parent|]; [|auto with silent].
  cbv zeta.
  destruct (if Node.type parent === AST_NODE_TYPES.MemberExpression
            then parentOf parent else Some parent) as [effectiveParent|];
    [|auto with silent].
  rewrite (shouldReport_valid _ effectiveParent _ Hvalid), Hvalid.
  rewrite ?andb_false_r.
  silent_with ltac:(idtac; match goal with
                    | H : false = true |- _ => discriminate H
                    | H : (_ && false) = true |- _ =>
                        rewrite andb_false_r in H; discriminate H
                    | H : (_ && false && _) = true |- _ =>
                        rewrite andb_false_r in H; discriminate H
                    end).
Qed.

End Soundness.

(** ** What [report] does *)
Section Report.
Variable this : Rule.

Lemma report_fresh (node : Linked) st :
  toString (Node.range node) ∉ reportedNodes st →
  report this node st =
    (state ({[ toString (Node.range node) ]} ∪ reportedNodes st)
           (reported st ++
            [descriptor (default "" (Node.name node)) (pattern this)
               (if Node.type node === AST_NODE_TYPES.PrivateIdentifier
                then notMatchPrivate else notMatch) node]),
     Normal).
Proof. intros H. unfold report. by rewrite bool_decide_eq_false_2. Qed.

Lemma report_seen (node : Linked) st :
  toString (Node.range node) ∈ reportedNodes st →
  report this node st = (st, Normal).
Proof. intros H. unfold report. by rewrite bool_decide_eq_true_2. Qed.

Lemma report_Normal (node : Linked) st : snd (report this node st) = Normal.
Proof. unfold report. by destruct (negb _). Qed.

End Report.

Lemma Set_has_ALLOWED_PARENT_TYPES t :
  Set_has ALLOWED_PARENT_TYPES t
  = (t === AST_NODE_TYPES.CallExpression) || (t === AST_NODE_TYPES.NewExpression).
Proof.
  apply eq_iff_eq_true. unfold Set_has, ALLOWED_PARENT_TYPES.
  rewrite orb_true_iff, !strictEq_true, bool_decide_eq_true.
  rewrite elem_of_union, !elem_of_singleton. reflexivity.
Qed.

Lemma Set_has_DECLARATION_TYPES t :
  Set_has DECLARATION_TYPES t
  = (t === AST_NODE_TYPES.FunctionDeclaration)
    || (t === AST_NODE_TYPES.VariableDeclarator).
Proof.
  apply eq_iff_eq_true. unfold Set_has, DECLARATION_TYPES.
  rewrite orb_true_iff, !strictEq_true, bool_decide_eq_true.
  rewrite elem_of_union, !elem_of_singleton. reflexivity.
Qed.

Lemma Set_has_IMPORT_TYPES t :
  Set_has IMPORT_TYPES t
  = (t === AST_NODE_TYPES.ImportSpecifier)
    || (t === AST_NODE_TYPES.ImportNamespaceSpecifier)
    || (t === AST_NODE_TYPES.ImportDefaultSpecifier).
Proof.
  apply eq_iff_eq_true. unfold Set_has, IMPORT_TYPES.
  rewrite !orb_true_iff, !strictEq_true, bool_decide_eq_true.
  rewrite !elem_of_union, !elem_of_singleton. reflexivity.
Qed.

Ltac seen :=
  simpl;
  first [ assumption
        | apply elem_of_union; left; apply elem_of_singleton; reflexivity
        | apply elem_of_union; right; seen ].

Ltac run :=
  rewrite ?Set_has_IMPORT_TYPES; unfold shouldReport;
  rewrite ?Set_has_ALLOWED_PARENT_TYPES, ?Set_has_DECLARATION_TYPES;
  unfold call, andThen, when, skip, return_, throw, report; simpl;
  repeat (first
            [ rewrite (bool_decide_eq_false_2 (_ ∈ _)) by (simpl; assumption)
            | rewrite (bool_decide_eq_true_2 (_ ∈ _)) by seen ];
          simpl);
  try reflexivity.


(** ** Properties of the state kept by every statement of the visitor *)
Section Preserves.
Variable P : State → Prop.

Lemma Preserves_skip : Preserves P skip.
Proof. by intros st. Qed.

Lemma Preserves_return : Preserves P return_.
Proof. by intros st. Qed.

Lemma Preserves_throw message : Preserves P (throw message).
Proof. by intros st. Qed.

Lemma Preserves_andThen a b : Preserves P a → Preserves P b → Preserves P (a ;; b).
Proof.
  intros Ha Hb st Hst. unfold andThen. specialize (Ha st Hst).
  destruct (a st) as [st' []]; simpl in *; auto.
Qed.

Lemma Preserves_when c a : Preserves P a → Preserves P (when c a).
Proof. destruct c; simpl; auto using Preserves_skip. Qed.

Lemma Preserves_call body : Preserves P body → Preserves P (call body).
Proof.
  intros Hb st Hst. unfold call. specialize (Hb st Hst).
  by destruct (body st) as [st' []].
Qed.

Lemma Preserves_if (c : bool) a b :
  Preserves P a → Preserves P b → Preserves P (if c then a else b).
Proof. by destruct c. Qed.

Lemma Identifier_Preserves this (node : Linked) :
  Preserves P (report this node) → Preserves P (Identifier this node).
Proof.
  intros Hreport. unfold Identifier. apply Preserves_call.
  destruct (Node.name node); [|apply Preserves_skip].
  destruct (parentOf node) as [parent|]; [|apply Preserves_return].
  cbv zeta.
  destruct (if Node.type parent === AST_NODE_TYPES.MemberExpression
            then parentOf parent else Some parent) as [effectiveParent|];
    [|apply Preserves_return].
  repeat first
    [ assumption | apply Preserves_skip | apply Preserves_return
    | apply Preserves_throw | apply Preserves_andThen
    | apply Preserves_when | apply Preserves_if | progress cbv zeta ].
Qed.

Lemma enter_Preserves this (node : Linked) :
  (Node.type node = AST_NODE_TYPES.Identifier → Preserves P (report this node)) →
  Preserves P (enter this node).
Proof.
  intros Hreport. unfold enter.
  destruct (strictEq _ _) eqn:E; [|apply Preserves_skip].
  apply Identifier_Preserves, Hreport. by apply strictEq_true.
Qed.

Lemma walk_Preserves this nodes :
  (∀ node : Linked, Node.type node = AST_NODE_TYPES.Identifier →
                    Preserves P (report this node)) →
  Preserves P (walk this nodes).
Proof.
  intros Hreport. induction nodes as [|node rest IH]; simpl.
  - apply Preserves_skip.
  - apply Preserves_andThen; [by apply enter_Preserves; auto|done].
Qed.

End Preserves.

(** ** The invariant of [reportedNodes] *)
Section Dedup.

Lemma Deduplicated_initial : Deduplicated initial.
Proof. split; [constructor|]. by intros d ?%elem_of_nil. Qed.

Lemma report_Deduplicated this (node : Linked) :
  Preserves Deduplicated (report this node).
Proof.
  intros st [Hnodup Hin]. unfold report.
  destruct (bool_decide_reflect (toString (Node.range node) ∈ reportedNodes st))
    as [Hseen|Hfresh]; simpl; [done|].
  split; simpl.
  - rewrite map_app. simpl. apply NoDup_app. split; [done|]. split.
    + intros k Hk Hk'%list_elem_of_singleton. subst k.
      apply list_elem_of_fmap in Hk as (d & Hd & Hdin).
      apply Hfresh. specialize (Hin d Hdin). rewrite <- Hd in Hin. exact Hin.
    + apply NoDup_singleton.
  - intros d [Hd| ->%list_elem_of_singleton]%elem_of_app.
    + apply elem_of_union. right. by apply Hin.
    + apply elem_of_union. left. by apply elem_of_singleton.
Qed.

Lemma walk_Deduplicated this nodes :
  Deduplicated (fst (walk this nodes initial)).
Proof.
  apply walk_Preserves; [|apply Deduplicated_initial].
  intros node _. apply report_Deduplicated.
Qed.

Lemma NoDup_ranges (l : list Descriptor) :
  NoDup (map rangeKey l) → NoDup (map (λ d, Node.range (node d)) l).
Proof.
  intros H. change (map rangeKey l)
    with (map (λ d, toString (Node.range (node d))) l) in H.
  rewrite <- (map_map (λ d, Node.range (node d)) toString) in H.
  by apply NoDup_fmap_1 in H.
Qed.

End Dedup.

(** Every diagnostic of a walk is on an [Identifier] and has the ordinary
    message. *)
Section Ordinary.

Lemma report_Ordinary this (node : Linked) :
  Node.type node = AST_NODE_TYPES.Identifier →
  Preserves Ordinary (report this node).
Proof.
  intros Hty st Hst. unfold report. destruct (negb _); [|done]. simpl.
  apply Forall_app. split; [done|]. constructor; [|constructor]. simpl.
  by rewrite Hty.
Qed.

Lemma walk_Ordinary this nodes : Ordinary (fst (walk this nodes initial)).
Proof.
  apply walk_Preserves; [|constructor]. intros node. apply report_Ordinary.
Qed.

End Ordinary.

Section NoThrow.

Lemma NoThrow_skip : NoThrow skip.
Proof. intros st. by left. Qed.

Lemma NoThrow_return : NoThrow return_.
Proof. intros st. by right. Qed.

Lemma NoThrow_report this node : NoThrow (report this node).
Proof. intros st. left. apply report_Normal. Qed.

Lemma NoThrow_andThen a b : NoThrow a → NoThrow b → NoThrow (a ;; b).
Proof.
  intros Ha Hb st. unfold andThen. specialize (Ha st).
  destruct (a st) as [st' []]; simpl in *;
    [apply Hb|by right|by destruct Ha].
Qed.

Lemma NoThrow_when c a : (c = true → NoThrow a) → NoThrow (when c a).
Proof. destruct c; simpl; auto using NoThrow_skip. Qed.

Lemma NoThrow_if (c : bool) a b :
  (c = true → NoThrow a) → (c = false → NoThrow b) →
  NoThrow (if c then a else b).
Proof. destruct c; auto. Qed.

Lemma call_Normal body st : NoThrow body → snd (call body st) = Normal.
Proof.
  intros Hb. unfold call. specialize (Hb st).
  destruct (body st) as [st' []]; simpl in *; by destruct Hb.
Qed.

End NoThrow.

Lemma key_None_shorthand (p : TSESTree.Node) :
  Node.key p = None → Node.shorthand p = None.
Proof. by destruct p. Qed.

Lemma lacksKey_spec (node : Linked) :
  lacksKey node = true ↔
  ∃ parent grandparent : Linked,
    parentOf node = Some parent
    ∧ (Node.type parent = AST_NODE_TYPES.Property
       ∨ Node.type parent = AST_NODE_TYPES.AssignmentPattern)
    ∧ parentOf parent = Some grandparent
    ∧ Node.type grandparent = AST_NODE_TYPES.ObjectPattern
    ∧ Node.key parent = None.
Proof.
  unfold lacksKey. destruct (parentOf node) as [parent|].
  - rewrite !andb_true_iff, orb_true_iff, !strictEq_true, negb_true_iff.
    split.
    + intros [[Hty Hgp] Hkey].
      destruct (parentOf parent) as [gp|] eqn:Egp; [|done].
      exists parent, gp. simpl in Hgp. injection Hgp as Hgp.
      destruct (Node.key parent) eqn:Ekey; [done|]. eauto 10.
    + intros (p & gp & [= <-] & Hty & Hgp & Hop & Hkey).
      rewrite Hgp, Hkey. simpl. by rewrite Hop.
  - split; [done|]. by intros (? & ? & ? & _).
Qed.

Section Throws.
Variable this : Rule.

Lemma Identifier_lacksKey (node : Linked) st :
  isSome (Node.name node) = true → lacksKey node = true →
  Identifier this node st = (st, Throw "OK").
Proof.
  intros Hname Hlacks. unfold lacksKey in Hlacks. unfold Identifier.
  destruct (Node.name node) as [name|]; [|done].
  destruct (parentOf node) as [parent|]; [|done].
  apply andb_true_iff in Hlacks as [[Hty Hgp]%andb_true_iff Hkey].
  apply negb_true_iff in Hkey.
  assert ((Node.type parent === AST_NODE_TYPES.MemberExpression) = false) as ->.
  { apply orb_true_iff in Hty as [->%strictEq_true| ->%strictEq_true]; done. }
  rewrite Hty, Hgp, Hkey. cbv zeta.
  destruct (Node.key parent) eqn:Ek; [done|].
  rewrite (key_None_shorthand _ Ek). simpl.
  rewrite !andb_false_r. by run.
Qed.

Lemma Identifier_hasKey (node : Linked) st :
  lacksKey node = false → snd (Identifier this node st) = Normal.
Proof.
  intros Hhas. unfold Identifier. apply call_Normal.
  destruct (Node.name node) as [name|]; [|apply NoThrow_skip].
  unfold lacksKey in Hhas.
  destruct (parentOf node) as [parent|]; [|apply NoThrow_return].
  cbv zeta.
  destruct (if Node.type parent === AST_NODE_TYPES.MemberExpression
            then parentOf parent else Some parent) as [effectiveParent|];
    [|apply NoThrow_return].
  repeat first
    [ apply NoThrow_skip | apply NoThrow_return | apply NoThrow_report
    | apply NoThrow_andThen
    | apply NoThrow_when; intros ?
    | apply NoThrow_if; intros ?
    | progress cbv zeta ].
  repeat match goal with
         | H : ?c = true |- _ => rewrite H in Hhas
         end.
  discriminate Hhas.
Qed.

End Throws.

Lemma create_closure o :
  create (Some Config.lowercase) (Some o) = Some (Config.closure o).
Proof. reflexivity. Qed.

(** ** The claims *)

(** C1. Soundness: whatever the tree, the pattern and the options, the
    visitor emits nothing for a node whose name the compiled pattern
    matches; the state it is run on comes back as it was, in the member
    access, object entry, import binding and class field branches and in the
    fallback alike. *)
Theorem C1_matching_name_is_never_reported
    (this : Rule) (node : Linked) (name : string) (st : State) :
  Node.name node = Some name →
  RegExp.test (regexp this) name = true →
  fst (Identifier this node st) = st ∧ fst (enter this node st) = st.
Proof.
  intros Hname Htest.
  assert (isInvalid this name = false) as Hvalid.
  { unfold isInvalid. by rewrite Htest. }
  split; [by apply (Identifier_valid_Silent this node name)|].
  unfold enter. destruct (strictEq _ _); [|done].
  by apply (Identifier_valid_Silent this node name).
Qed.

Lemma C1_witness :
  let this := Config.closure Config.properties in
  let node := entered Programs.member_read 3 in
  Node.name node = Some "obj"
  ∧ RegExp.test (regexp this) "obj" = true
  ∧ fst (Identifier this node initial) = initial
  ∧ fst (enter this node initial) = initial.
Proof.
  intros this node.
  split; [reflexivity|]. split; [reflexivity|].
  apply (C1_matching_name_is_never_reported this node "obj" initial);
    reflexivity.
Defined.

(** What [report] would emit for a private name, were the visitor ever
    called on one: the branch for [PrivateIdentifier] is there. *)
Lemma Identifier_on_PrivateIdentifier this r n rp v up st :
  checkClassFields this = true →
  isInvalid this n = true →
  toString r ∉ reportedNodes st →
  let node := link (TSESTree.PrivateIdentifier r n)
                   ((Field "key", TSESTree.PropertyDefinition rp
                                    (TSESTree.PrivateIdentifier r n) v) :: up) in
  Identifier this node st =
    (state ({[ toString r ]} ∪ reportedNodes st)
           (reported st ++ [descriptor n (pattern this) notMatchPrivate node]),
     Normal).
Proof.
  intros Hopt Hinv Hfresh node. unfold Identifier. simpl.
  rewrite Hopt, Hinv. by run.
Qed.

(** C2. A private class field is never reported: the host calls the rule on
    [Identifier] nodes only, the name of a private field is a
    [PrivateIdentifier], and so no diagnostic of a run has the message
    [notMatchPrivate].  With [classFields] on, [class a { #bad_name = 1; }]
    gives no diagnostic, where [class a { bad_name = 1; }] gives the ordinary
    one. *)
Theorem C2_private_field_is_not_reported :
  (∀ this ast, Forall (λ d, messageId d = notMatch) (validate this ast))
  ∧ (∀ this (node : Linked) st,
       Node.type node = AST_NODE_TYPES.PrivateIdentifier →
       enter this node st = (st, Normal))
  ∧ checkClassFields (Config.closure Config.classFields) = true
  ∧ isInvalid (Config.closure Config.classFields) "bad_name" = true
  ∧ verify (Some Config.lowercase) (Some Config.classFields)
           Programs.private_field = Some []
  ∧ verify (Some Config.lowercase) (Some Config.classFields)
           Programs.public_field
    = Some [("Identifier 'bad_name' does not match the pattern '^[a-z]+$'.",
             (10, 18))].
Proof.
  split; [|split; [|repeat split; vm_compute; reflexivity]].
  - intros this ast. apply walk_Ordinary.
  - intros this node st Hty. unfold enter. by rewrite Hty.
Qed.

(** C6. An identifier directly under a call or a constructor invocation, an
    argument in particular, is never reported, whatever its name, the
    pattern and the options. *)
Theorem C6_arguments_are_exempt
    (this : Rule) (node parent : Linked) (st : State) :
  parentOf node = Some parent →
  Node.type parent = AST_NODE_TYPES.CallExpression
  ∨ Node.type parent = AST_NODE_TYPES.NewExpression →
  Identifier this node st = (st, Normal).
Proof.
  intros Hparent Hty. unfold Identifier.
  destruct (Node.name node) as [name|]; [|done]. rewrite Hparent.
  assert (shouldReport this parent name = false) as Hno.
  { unfold shouldReport. rewrite Set_has_ALLOWED_PARENT_TYPES.
    destruct Hty as [-> | ->]; simpl; by rewrite andb_false_r. }
  rewrite Set_has_IMPORT_TYPES.
  destruct Hty as [Hty|Hty]; rewrite Hty; simpl; by rewrite Hno.
Qed.

Lemma C6_witness :
  let this := Config.closure Config.none in
  let node := entered Programs.call_argument 4 in
  let parent := entered Programs.call_argument 2 in
  Node.name node = Some "bad_name"
  ∧ isInvalid this "bad_name" = true
  ∧ parentOf node = Some parent
  ∧ Node.type parent = AST_NODE_TYPES.CallExpression
  ∧ Identifier this node initial = (initial, Normal).
Proof.
  intros this node parent.
  split; [reflexivity|]. split; [reflexivity|]. split; [reflexivity|].
  split; [reflexivity|].
  apply (C6_arguments_are_exempt this node parent initial);
    [reflexivity|left; reflexivity].
Defined.

Example C6_programs :
  verify (Some Config.lowercase) (Some Config.none) Programs.call_argument
  = Some []
  ∧ verify (Some Config.lowercase) (Some Config.none) Programs.new_argument
    = Some [].
Proof. split; vm_compute; reflexivity. Qed.



(** C8, as claimed, fails: the visitor compares the name of the node with
    the name of [parent.local], not the node with [parent.local], so the
    imported name is validated when it is spelled like the local one.  On
    [import { bad_name as bad_name } from 'x';], with no option set, the
    node [imported] at (9, 17) is reported, and so is the node [local] at
    (21, 29). *)
Lemma C8_counterexample :
  let this := Config.closure Config.none in
  let imported := entered Programs.import_same_name 3 in
  create (Some Config.lowercase) (Some Config.none) = Some this
  ∧ isChild "imported" imported = true
  ∧ Node.range imported = (9, 17)
  ∧ ¬ (∀ d, d ∈ validate this Programs.import_same_name →
            isChild "imported" (node d) = false)
  ∧ map (λ d, (Node.range (node d), isChild "imported" (node d)))
        (validate this Programs.import_same_name)
    = [((9, 17), true); ((21, 29), false)].
Proof.
  intros this imported.
  assert (map (λ d, (Node.range (node d), isChild "imported" (node d)))
              (validate this Programs.import_same_name)
          = [((9, 17), true); ((21, 29), false)]) as Hrun
    by (vm_compute; reflexivity).
  split; [reflexivity|]. split; [reflexivity|]. split; [reflexivity|].
  split; [|exact Hrun].
  intros Hnever.
  destruct (validate this Programs.import_same_name) as [|d ds] eqn:E;
    [discriminate Hrun|].
  injection Hrun as _ Hd _. specialize (Hnever d ltac:(left)).
  rewrite Hnever in Hd. discriminate Hd.
Qed.

(** C8. With [ignoreNamedImports] nothing is reported under a named import
    specifier, while the name bound by a default import is still reported;
    under any import specifier a node is reported only if its name is the
    local name of the specifier, so an imported name that differs from the
    local one is never reported, while an imported name spelled like the
    local one is reported as the local one is. *)
Theorem C8_import_bindings (this : Rule) :
  (∀ (node parent : Linked) st,
     ignoreNamedImports this = true →
     parentOf node = Some parent →
     Node.type parent = AST_NODE_TYPES.ImportSpecifier →
     Identifier this node st = (st, Normal))
  ∧ (∀ r n rs up st,
       isInvalid this n = true →
       toString r ∉ reportedNodes st →
       let node :=
         link (TSESTree.Identifier r n)
              ((Field "local",
                TSESTree.ImportDefaultSpecifier rs (TSESTree.Identifier r n))
               :: up) in
       Identifier this node st =
         (state ({[ toString r ]} ∪ reportedNodes st)
                (reported st ++ [descriptor n (pattern this) notMatch node]),
          Normal))
  ∧ (∀ (node parent : Linked) st,
       parentOf node = Some parent →
       Set_has IMPORT_TYPES (Node.type parent) = true →
       Node.local parent ≫= Node.name ≠ Node.name node →
       Identifier this node st = (st, Normal))
  ∧ (∀ ri rl n rs up st,
       ignoreNamedImports this = false →
       isInvalid this n = true →
       toString ri ∉ reportedNodes st →
       let node :=
         link (TSESTree.Identifier ri n)
              ((Field "imported",
                TSESTree.ImportSpecifier rs (TSESTree.Identifier ri n)
                                         (TSESTree.Identifier rl n))
               :: up) in
       Identifier this node st =
         (state ({[ toString ri ]} ∪ reportedNodes st)
                (reported st ++ [descriptor n (pattern this) notMatch node]),
          Normal)).
Proof.
  split; [|split; [|split]]; cycle 3.
  { intros ri rl n rs up st Hopt Hinv Hfresh node. unfold Identifier. simpl.
    rewrite Hinv, Hopt, !strictEq_refl. by run. }
  - intros node parent st Hopt Hparent Hty. unfold Identifier.
    destruct (Node.name node) as [name|]; [|done].
    rewrite Hparent, Hty, Hopt. by run.
  - intros r n rs up st Hinv Hfresh node. unfold Identifier. simpl.
    rewrite Hinv, strictEq_refl. destruct (ignoreNamedImports this); by run.
  - intros node parent st Hparent Himport Hne. unfold Identifier.
    destruct (Node.name node) as [name|] eqn:Hname; [|done].
    rewrite Hparent, Himport. cbv zeta.
    rewrite Set_has_IMPORT_TYPES, !orb_true_iff, !strictEq_true in Himport.
    rewrite (strictEq_ne _ _ Hne), andb_false_r.
    destruct Himport as [[Hty|Hty]|Hty]; rewrite Hty; simpl;
      by destruct (ignoreNamedImports this).
Qed.

Lemma C8_witness :
  let this := Config.closure Config.ignoreNamedImports in
  let named := entered Programs.import_named 3 in
  let renamed := entered Programs.import_renamed 3 in
  (ignoreNamedImports this = true
   ∧ Node.name named = Some "bad_name"
   ∧ isInvalid this "bad_name" = true
   ∧ Identifier this named initial = (initial, Normal))
  ∧ (Node.name renamed = Some "bad_name"
     ∧ Identifier (Config.closure Config.none) renamed initial
       = (initial, Normal))
  ∧ map (λ d, Node.range (node d))
        (reported (fst (Identifier (Config.closure Config.none)
                          (entered Programs.import_same_name 3) initial)))
    = [(9, 17)].
Proof.
  intros this named renamed. split; [|split].
  - split; [reflexivity|]. split; [reflexivity|]. split; [reflexivity|].
    apply (proj1 (C8_import_bindings this) named
             (entered Programs.import_named 2) initial); reflexivity.
  - split; [reflexivity|].
    apply (proj1 (proj2 (proj2 (C8_import_bindings (Config.closure Config.none))))
             renamed (entered Programs.import_renamed 2) initial);
      [reflexivity|vm_compute; reflexivity|discriminate].
  - pose proof (proj2 (proj2 (proj2 (C8_import_bindings
                                       (Config.closure Config.none))))
                  (9, 17) (21, 29) "bad_name" (9, 29)
                  (above (entered Programs.import_same_name 2)) initial
                  eq_refl eq_refl) as Hrun.
    cbv zeta in Hrun.
    change (link _ _) with (entered Programs.import_same_name 3) in Hrun.
    rewrite Hrun; [reflexivity|].
    simpl. apply not_elem_of_empty.
Defined.

Example C8_programs :
  verify (Some Config.lowercase) (Some Config.ignoreNamedImports)
         Programs.import_named = Some []
  ∧ verify (Some Config.lowercase) (Some Config.ignoreNamedImports)
           Programs.import_default
    = Some [("Identifier 'bad_name' does not match the pattern '^[a-z]+$'.",
             (7, 15))]
  ∧ verify (Some Config.lowercase) (Some Config.none) Programs.import_renamed
    = Some []
  ∧ verify (Some Config.lowercase) (Some Config.none)
           Programs.import_same_name
    = Some [("Identifier 'bad_name' does not match the pattern '^[a-z]+$'.",
             (9, 17));
            ("Identifier 'bad_name' does not match the pattern '^[a-z]+$'.",
             (21, 29))].
Proof. repeat split; vm_compute; reflexivity. Qed.

(** C9. On an [Identifier] the visitor throws exactly when the parent is a
    [Property] or an [AssignmentPattern] directly under an [ObjectPattern]
    and has no [key]; it then throws at once, with the state as it was, and
    in every other case it completes normally. *)
Theorem C9_missing_key_throws (this : Rule) (node : Linked) (st : State) :
  Node.type node = AST_NODE_TYPES.Identifier →
  (snd (Identifier this node st) = Throw "OK" ↔
   ∃ parent grandparent : Linked,
     parentOf node = Some parent
     ∧ (Node.type parent = AST_NODE_TYPES.Property
        ∨ Node.type parent = AST_NODE_TYPES.AssignmentPattern)
     ∧ parentOf parent = Some grandparent
     ∧ Node.type grandparent = AST_NODE_TYPES.ObjectPattern
     ∧ Node.key parent = None)
  ∧ (∀ message, snd (Identifier this node st) = Throw message →
                Identifier this node st = (st, Throw "OK"))
  ∧ (snd (Identifier this node st) = Normal
     ∨ snd (Identifier this node st) = Throw "OK").
Proof.
  intros Hty.
  assert (isSome (Node.name node) = true) as Hname.
  { destruct node as [[] up]; simpl in *; done. }
  rewrite <- lacksKey_spec.
  destruct (lacksKey node) eqn:Hlacks.
  - rewrite (Identifier_lacksKey this node st Hname Hlacks). simpl.
    split; [done|]. split; [done|]. by right.
  - rewrite (Identifier_hasKey this node st Hlacks).
    split; [done|]. split; [done|]. by left.
Qed.

Lemma C9_witness :
  let entry :=
    TSESTree.AssignmentPattern (2, 11)
      (TSESTree.Identifier (2, 10) "bad_name") (TSESTree.Literal (10, 11) "1") in
  let node :=
    link (TSESTree.Identifier (2, 10) "bad_name")
         [(Field "left", entry);
          (Element "properties" 0, TSESTree.ObjectPattern (0, 13) [entry])] in
  Node.type node = AST_NODE_TYPES.Identifier
  ∧ Node.key entry = None
  ∧ Identifier (Config.closure Config.none) node initial = (initial, Throw "OK").
Proof.
  intros entry node. split; [reflexivity|]. split; [reflexivity|].
  apply (proj1 (proj2 (C9_missing_key_throws (Config.closure Config.none)
                         node initial eq_refl)) "OK").
  apply (proj1 (C9_missing_key_throws (Config.closure Config.none)
                  node initial eq_refl)).
  exists (link entry [(Element "properties" 0, TSESTree.ObjectPattern (0, 13) [entry])]),
         (link (TSESTree.ObjectPattern (0, 13) [entry]) []).
  repeat split. right. reflexivity.
Defined.

(** C3, as stated, fails: with [ignoreDestructuring] the shorthand entry with
    a default, [const { bad_name = 1 } = obj;], is not flagged. *)
Lemma C3_counterexample :
  let this := Config.closure Config.ignoreDestructuring in
  create (Some Config.lowercase) (Some Config.ignoreDestructuring) = Some this
  ∧ ignoreDestructuring this = true
  ∧ isInvalid this "bad_name" = true
  ∧ validate this Programs.destructure_default = [].
Proof. repeat split; vm_compute; reflexivity. Qed.

(** C3, amended. For a shorthand entry of an object pattern, with
    [ignoreDestructuring] nothing is reported, neither for [{ bad_name }]
    nor for [{ bad_name = 1 }]: the key, the value and the left side of the
    default all leave the state as it was.  The entry with a default is
    reported, once and at its key, when [ignoreDestructuring] is off. *)
Theorem C3_shorthand_destructuring
    (this : Rule) r n rp rv dflt slot op up (st : State) :
  Node.type op = AST_NODE_TYPES.ObjectPattern →
  let name := TSESTree.Identifier r n in
  let plain := TSESTree.Property rp name name true in
  let value := TSESTree.AssignmentPattern rv name dflt in
  let defaulted := TSESTree.Property rp name value true in
  let keyNode := link name ((Field "key", defaulted) :: (slot, op) :: up) in
  let leftNode :=
    link name ((Field "left", value) :: (Field "value", defaulted)
               :: (slot, op) :: up) in
  (ignoreDestructuring this = true →
   Identifier this (link name ((Field "key", plain) :: (slot, op) :: up)) st
   = (st, Normal)
   ∧ Identifier this (link name ((Field "value", plain) :: (slot, op) :: up)) st
     = (st, Normal)
   ∧ Identifier this keyNode st = (st, Normal)
   ∧ Identifier this leftNode st = (st, Normal))
  ∧ (ignoreDestructuring this = false →
     isInvalid this n = true →
     toString r ∉ reportedNodes st →
     (Identifier this keyNode ;; Identifier this leftNode)%stmt st
     = (state ({[ toString r ]} ∪ reportedNodes st)
              (reported st ++ [descriptor n (pattern this) notMatch keyNode]),
        Normal)).
Proof.
  intros Hop name plain value defaulted keyNode leftNode. split.
  - intros Hopt. unfold Identifier. simpl.
    rewrite Hop, Hopt, !strictEq_refl. unfold isInsideObjectPattern. simpl.
    rewrite Hop, !strictEq_refl, !andb_false_r, !orb_true_r.
    repeat split; by run.
  - intros Hopt Hinv Hfresh. unfold Identifier, shouldReport. simpl.
    rewrite Hop, Hopt, Hinv. simpl.
    destruct (checkProperties this), (onlyDeclarations this); by run.
Qed.

Lemma C3_witness :
  let this := Config.closure Config.none in
  let pattern := entered Programs.destructure_default 3 in
  let keyNode := entered Programs.destructure_default 5 in
  let leftNode := entered Programs.destructure_default 7 in
  Node.type pattern = AST_NODE_TYPES.ObjectPattern
  ∧ ignoreDestructuring this = false
  ∧ isInvalid this "bad_name" = true
  ∧ (toString (8, 16) ∉ reportedNodes initial)
  ∧ (Identifier this keyNode ;; Identifier this leftNode)%stmt initial
    = (state ({[ toString (8, 16) ]} ∪ ∅)
             [descriptor "bad_name" Config.lowercase notMatch keyNode],
       Normal).
Proof.
  intros this pattern keyNode leftNode.
  split; [reflexivity|]. split; [reflexivity|]. split; [reflexivity|].
  split; [apply not_elem_of_empty|].
  exact (proj2 (C3_shorthand_destructuring this (8, 16) "bad_name" (8, 20)
                  (8, 20) (TSESTree.Literal (19, 20) "1")
                  (Element "properties" 0) pattern (above pattern) initial
                  eq_refl)
               eq_refl eq_refl (not_elem_of_empty _)).
Defined.

Example C3_programs :
  verify (Some Config.lowercase) (Some Config.ignoreDestructuring)
         Programs.destructure_shorthand = Some []
  ∧ verify (Some Config.lowercase) (Some Config.ignoreDestructuring)
           Programs.destructure_default = Some []
  ∧ verify (Some Config.lowercase) (Some Config.none)
           Programs.destructure_default
    = Some [("Identifier 'bad_name' does not match the pattern '^[a-z]+$'.",
             (8, 16))].
Proof. repeat split; vm_compute; reflexivity. Qed.

(** C4, as stated, fails: with [properties] on, the read [obj.bad_name;] is
    not flagged. *)
Lemma C4_counterexample :
  let this := Config.closure Config.properties in
  create (Some Config.lowercase) (Some Config.properties) = Some this
  ∧ checkProperties this = true
  ∧ isInvalid this "bad_name" = true
  ∧ validate this Programs.member_read = [].
Proof. repeat split; vm_compute; reflexivity. Qed.

(** C4, amended. Under a member access, with [properties] off nothing is
    reported.  With [properties] on, the property of a member access that is
    the left side of an assignment, [obj.bad_name = v], is reported when its
    name fails the pattern; a member access that is not directly under an
    assignment, as the read [obj.bad_name;], is not reported unless its
    object is an identifier of that same name. *)
Theorem C4_member_access (this : Rule) :
  (∀ (node parent : Linked) st,
     checkProperties this = false →
     parentOf node = Some parent →
     Node.type parent = AST_NODE_TYPES.MemberExpression →
     Identifier this node st = (st, Normal))
  ∧ (∀ r n rm o ra rhs up st,
       checkProperties this = true →
       isInvalid this n = true →
       toString r ∉ reportedNodes st →
       let target := TSESTree.MemberExpression rm o (TSESTree.Identifier r n) in
       let assignment := TSESTree.AssignmentExpression ra target rhs in
       let node :=
         link (TSESTree.Identifier r n)
              ((Field "property", target) :: (Field "left", assignment) :: up) in
       Identifier this node st =
         (state ({[ toString r ]} ∪ reportedNodes st)
                (reported st ++ [descriptor n (pattern this) notMatch node]),
          Normal))
  ∧ (∀ (node parent effectiveParent : Linked) st,
       parentOf node = Some parent →
       Node.type parent = AST_NODE_TYPES.MemberExpression →
       parentOf parent = Some effectiveParent →
       Node.type effectiveParent ≠ AST_NODE_TYPES.AssignmentExpression →
       Node.object parent ≫= Node.name ≠ Node.name node →
       Identifier this node st = (st, Normal)).
Proof.
  split; [|split].
  - intros node parent st Hopt Hparent Hty. unfold Identifier.
    destruct (Node.name node) as [name|]; [|done].
    rewrite Hparent, Hty, Hopt. simpl.
    destruct (parentOf parent); by run.
  - intros r n rm o ra rhs up st Hopt Hinv Hfresh target assignment node.
    unfold Identifier. simpl. rewrite Hopt, Hinv, !strictEq_refl. simpl.
    destruct (_ && _); by run.
  - intros node parent effectiveParent st Hparent Hty Hgp Hnot Hne.
    unfold Identifier.
    destruct (Node.name node) as [name|] eqn:Hname; [|done].
    rewrite Hparent, Hty, Hgp. simpl.
    rewrite (strictEq_ne _ _ Hne), (strictEq_ne _ _ Hnot), andb_false_r. simpl.
    destruct (checkProperties this); by run.
Qed.

Lemma C4_witness :
  let this := Config.closure Config.properties in
  let written := entered Programs.member_write 5 in
  let read := entered Programs.member_read 4 in
  (checkProperties this = true
   ∧ isInvalid this "bad_name" = true
   ∧ (toString (4, 12) ∉ reportedNodes initial)
   ∧ Identifier this written initial
     = (state ({[ toString (4, 12) ]} ∪ ∅)
              [descriptor "bad_name" Config.lowercase notMatch written],
        Normal))
  ∧ (Node.name read = Some "bad_name"
     ∧ Identifier this read initial = (initial, Normal))
  ∧ Identifier (Config.closure Config.none) written initial = (initial, Normal).
Proof.
  intros this written read. split; [|split].
  - split; [reflexivity|]. split; [reflexivity|].
    split; [apply not_elem_of_empty|].
    apply (proj1 (proj2 (C4_member_access this)) (4, 12) "bad_name" (0, 12)
             (TSESTree.Identifier (0, 3) "obj") (0, 16)
             (TSESTree.Literal (15, 16) "1") _ initial);
      [reflexivity|reflexivity|apply not_elem_of_empty].
  - split; [reflexivity|].
    apply (proj2 (proj2 (C4_member_access this)) read
             (entered Programs.member_read 2) (entered Programs.member_read 1)
             initial); try reflexivity; discriminate.
  - apply (proj1 (C4_member_access (Config.closure Config.none)) written
             (entered Programs.member_write 3) initial); reflexivity.
Defined.

Example C4_programs :
  verify (Some Config.lowercase) (Some Config.none) Programs.member_read
  = Some []
  ∧ verify (Some Config.lowercase) (Some Config.none) Programs.member_write
    = Some []
  ∧ verify (Some Config.lowercase) (Some Config.properties) Programs.member_read
    = Some []
  ∧ verify (Some Config.lowercase) (Some Config.properties) Programs.member_write
    = Some [("Identifier 'bad_name' does not match the pattern '^[a-z]+$'.",
             (4, 12))].
Proof. repeat split; vm_compute; reflexivity. Qed.





(** ** Verdicts of the visitor *)
Section Verdicts.
Variables (this : Rule) (node : Linked).

Lemma report_twice st :
  fst (report this node (fst (report this node st)))
  = fst (report this node st).
Proof.
  unfold report at 2 3.
  destruct (bool_decide_reflect
              (toString (Node.range node) ∈ reportedNodes st)) as [Hin|Hout];
    simpl.
  - by rewrite report_seen.
  - rewrite report_seen; [done|]. simpl.
    apply elem_of_union. left. by apply elem_of_singleton.
Qed.

Lemma report_eq st : report this node st = (fst (report this node st), Normal).
Proof. unfold report. by destruct (negb _). Qed.

Lemma Verdict_skip : Verdict this node false Normal skip.
Proof. by intros st. Qed.

Lemma Verdict_return : Verdict this node false Return return_.
Proof. by intros st. Qed.

Lemma Verdict_throw message :
  Verdict this node false (Throw message) (throw message).
Proof. by intros st. Qed.

Lemma Verdict_report : Verdict this node true Normal (report this node).
Proof. intros st. apply report_eq. Qed.

Lemma Verdict_andThen fa ca fb cb a b :
  Verdict this node fa ca a → Verdict this node fb cb b →
  Verdict this node
          (match ca with Normal => fa || fb | _ => fa end)
          (match ca with Normal => cb | _ => ca end)
          (a ;; b).
Proof.
  intros Ha Hb st. unfold andThen. rewrite Ha.
  destruct ca; [|done|done]. rewrite Hb.
  destruct fa, fb; simpl; by rewrite ?report_twice.
Qed.

Lemma Verdict_call f c body :
  Verdict this node f c body →
  Verdict this node f (match c with Return => Normal | _ => c end) (call body).
Proof. intros Hb st. unfold call. rewrite Hb. by destruct c. Qed.

Lemma Below_same f c s : Verdict this node f c s → Below this node s s.
Proof. intros H. by exists f, f, c. Qed.

Lemma Below_andThen a a' b b' :
  Below this node a a' → Below this node b b' →
  Below this node (a ;; b) (a' ;; b').
Proof.
  intros (fa & fa' & ca & Hfa & Ha & Ha') (fb & fb' & cb & Hfb & Hb & Hb').
  exists (match ca with Normal => fa || fb | _ => fa end),
         (match ca with Normal => fa' || fb' | _ => fa' end),
         (match ca with Normal => cb | _ => ca end).
  split; [|split; by apply Verdict_andThen].
  destruct ca; [|done|done].
  destruct fa, fb; simpl; try done; intros _; rewrite ?Hfa, ?Hfb by done;
    by rewrite ?orb_true_r.
Qed.

Lemma Below_when c a a' :
  Below this node a a' → Below this node (when c a) (when c a').
Proof. destruct c; [done|]. intros _. apply (Below_same _ _ _ Verdict_skip). Qed.

Lemma Below_if (c : bool) a a' b b' :
  Below this node a a' → Below this node b b' →
  Below this node (if c then a else b) (if c then a' else b').
Proof. by destruct c. Qed.

Lemma Below_call s s' :
  Below this node s s' → Below this node (call s) (call s').
Proof.
  intros (f & f' & c & Hf & Hs & Hs').
  eexists _, _, _. split; [exact Hf|]. split; by apply Verdict_call.
Qed.

(** A statement in the last place of a function body may return where the
    other goes on, as long as the other does not throw. *)
Lemma Below_tail a a' t t' :
  Below this node a a' → Below this node (call t) (call t') →
  Below this node (call (a ;; t)) (call (a' ;; t')).
Proof.
  intros (fa & fa' & ca & Hfa & Ha & Ha') (ft & ft' & ct & Hft & Ht & Ht').
  destruct ca.
  - exists (fa || ft), (fa' || ft'), ct. split; [|split].
    + destruct fa, ft; simpl; try done; intros _;
        rewrite ?Hfa, ?Hft by done; by rewrite ?orb_true_r.
    + intros st. unfold call, andThen. rewrite Ha.
      specialize (Ht (if fa then fst (report this node st) else st)).
      unfold call in Ht.
      destruct (t _) as [st' c]. rewrite Ht.
      destruct fa, ft; simpl; by rewrite ?report_twice.
    + intros st. unfold call, andThen. rewrite Ha'.
      specialize (Ht' (if fa' then fst (report this node st) else st)).
      unfold call in Ht'.
      destruct (t' _) as [st' c]. rewrite Ht'.
      destruct fa', ft'; simpl; by rewrite ?report_twice.
  - exists fa, fa', Normal. split; [done|].
    split; intros st; unfold call, andThen; by rewrite ?Ha, ?Ha'.
  - exists fa, fa', (Throw message0). split; [done|].
    split; intros st; unfold call, andThen; by rewrite ?Ha, ?Ha'.
Qed.

Lemma Below_gate (g g' : bool) t t' :
  (g' = true → g = true) →
  Below this node (call t) (call t') →
  NoThrow t' →
  Below this node (call (when g return_ ;; t)) (call (when g' return_ ;; t')).
Proof.
  intros Hg Ht Hno. destruct g, g'; simpl.
  - apply (Below_same false Normal). by intros st.
  - destruct Ht as (ft & ft' & ct & Hft & Ht & Ht').
    exists false, ft', Normal. split; [done|]. split; [by intros st|].
    intros st. change (call (skip ;; t') st) with (call t' st).
    pose proof (call_Normal t' st Hno) as Hn. rewrite Ht' in Hn |- *.
    simpl in Hn. by rewrite Hn.
  - by specialize (Hg eq_refl).
  - exact Ht.
Qed.

End Verdicts.

Ltac nothrow :=
  repeat first
    [ apply NoThrow_skip | apply NoThrow_return | apply NoThrow_report
    | apply NoThrow_andThen
    | apply NoThrow_when; intros _
    | apply NoThrow_if; intros _
    | progress cbv zeta ].

(** Proves [c = true → c' = true] for two guards that differ in the options
    of two rules related by implications in the context. *)
Ltac guard_le :=
  let H := fresh "Hguard" in
  intros H;
  repeat match goal with
         | Hi : ?x = true → ?y = true |- _ =>
             first [ match goal with |- context [x] => idtac end
                   | match goal with |- context [y] => idtac end
                   | match type of H with context [x] => idtac end
                   | match type of H with context [y] => idtac end ];
             destruct x eqn:?, y eqn:?;
             try (by specialize (Hi eq_refl)); clear Hi
         end;
  simpl in *; try done;
  rewrite ?andb_true_r, ?andb_false_r, ?orb_true_r, ?orb_false_r in *;
  simpl in *; try done;
  rewrite ?andb_true_iff, ?orb_true_iff in *; intuition congruence.

Section Monotone.
Variables (this this' : Rule) (node : Linked).
Hypothesis same_pattern : pattern this = pattern this'.

Lemma Verdict_report' : Verdict this node true Normal (report this' node).
Proof.
  intros st. unfold report. rewrite <- same_pattern. by destruct (negb _).
Qed.

Lemma Below_when_report (c c' : bool) :
  (c = true → c' = true) →
  Below this node (when c (report this node)) (when c' (report this' node)).
Proof.
  intros Hc. destruct c, c'; simpl.
  - exists true, true, Normal.
    split; [done|]. split; [apply Verdict_report|apply Verdict_report'].
  - by specialize (Hc eq_refl).
  - exists false, true, Normal.
    split; [done|]. split; [apply Verdict_skip|apply Verdict_report'].
  - apply (Below_same _ _ _ _ _ (Verdict_skip this node)).
Qed.

Lemma Below_skip : Below this node skip skip.
Proof. apply (Below_same _ _ _ _ _ (Verdict_skip this node)). Qed.

Lemma Below_return : Below this node return_ return_.
Proof. apply (Below_same _ _ _ _ _ (Verdict_return this node)). Qed.

Lemma Below_throw message : Below this node (throw message) (throw message).
Proof. apply (Below_same _ _ _ _ _ (Verdict_throw this node message)). Qed.

End Monotone.

Ltac below :=
  repeat first
    [ apply Below_skip | apply Below_return | apply Below_throw
    | apply Below_andThen
    | apply Below_when_report; [assumption|guard_le]
    | apply Below_when
    | apply Below_if
    | progress cbv zeta ].

Lemma Identifier_Below (this this' : Rule) (node : Linked) :
  Looser this this' →
  Below this node (Identifier this node) (Identifier this' node).
Proof.
  intros (Hp & Hre & Hcp & Hccf & Hod & Hidd & Hini).
  unfold Identifier, shouldReport, isInvalid. rewrite <- Hre.
  destruct (Node.name node) as [name|]; [|apply Below_call, Below_skip].
  destruct (parentOf node) as [parent|]; [|apply Below_call, Below_return].
  cbv zeta.
  destruct (if Node.type parent === AST_NODE_TYPES.MemberExpression
            then parentOf parent else Some parent) as [effectiveParent|];
    [|apply Below_call, Below_return].
  destruct (Node.type parent === AST_NODE_TYPES.MemberExpression).
  { apply Below_gate; [guard_le|apply Below_call; below|nothrow]. }
  destruct ((Node.type parent === AST_NODE_TYPES.Property)
            || (Node.type parent === AST_NODE_TYPES.AssignmentPattern)).
  { apply Below_tail; [below|].
    apply Below_gate; [guard_le|apply Below_call; below|nothrow]. }
  apply Below_call.
  destruct (Set_has IMPORT_TYPES (Node.type parent)); [|below].
  destruct (Node.type parent === AST_NODE_TYPES.ImportSpecifier);
    rewrite ?andb_false_r, ?andb_true_r; [|below].
  destruct (ignoreNamedImports this) eqn:E, (ignoreNamedImports this') eqn:E';
    [below| |by specialize (Hini eq_refl)|below].
  change skip with (when false (report this node)). below.
Qed.

(** ** The visitor as a whole *)

Lemma strictEq_spec {A : Type} `{EqDecision A} (a b : A) :
  reflect (a = b) (a === b).
Proof. apply bool_decide_reflect. Qed.

Lemma Looser_refl this : Looser this this.
Proof. by repeat split. Qed.

Lemma Identifier_Verdict (this : Rule) (node : Linked) :
  ∃ (fires : bool) (c : Completion),
    c ≠ Return ∧ Verdict this node fires c (Identifier this node).
Proof.
  destruct (Identifier_Below this this node (Looser_refl this))
    as (f & _ & c & _ & Hv & _).
  exists f, c. split; [|exact Hv].
  intros ->. specialize (Hv initial). unfold Identifier, call in Hv.
  destruct (match Node.name node with _ => _ end initial) as [st' []];
    discriminate.
Qed.

Lemma enter_Verdict (this : Rule) (node : Linked) :
  ∃ (fires : bool) (c : Completion),
    c ≠ Return ∧ Verdict this node fires c (enter this node).
Proof.
  unfold enter. destruct (strictEq _ _).
  - apply Identifier_Verdict.
  - exists false, Normal. split; [done|]. by intros st.
Qed.

Lemma enter_Below (this this' : Rule) (node : Linked) :
  Looser this this' → Below this node (enter this node) (enter this' node).
Proof.
  intros H. unfold enter. destruct (strictEq _ _).
  - by apply Identifier_Below.
  - apply Below_skip.
Qed.

Lemma report_in this (node : Linked) st :
  toString (Node.range node) ∈ reportedNodes (fst (report this node st)).
Proof.
  unfold report.
  destruct (bool_decide_reflect
              (toString (Node.range node) ∈ reportedNodes st)); simpl;
    [done|]. apply elem_of_union. left. by apply elem_of_singleton.
Qed.

Lemma report_reportedNodes this (node : Linked) st k :
  k ∈ reportedNodes (fst (report this node st))
  ↔ k = toString (Node.range node) ∨ k ∈ reportedNodes st.
Proof.
  unfold report.
  destruct (bool_decide_reflect
              (toString (Node.range node) ∈ reportedNodes st)); simpl.
  - split; [by right|]. by intros [->|].
  - by rewrite elem_of_union, elem_of_singleton.
Qed.

Lemma report_reported this (node : Linked) st :
  reported (fst (report this node st)) = reported st
  ∨ reported (fst (report this node st))
    = reported st
      ++ [descriptor (default "" (Node.name node)) (pattern this)
            (if Node.type node === AST_NODE_TYPES.PrivateIdentifier
             then notMatchPrivate else notMatch) node].
Proof. unfold report. destruct (negb _); simpl; auto. Qed.

(** X1. A call of the visitor touches the state through [report] alone: for
    each rule and node there is one verdict, to report the node or not, and
    one completion, and on every state the call does what one [report node]
    does, or nothing, and completes that way.  So a call emits at most one
    diagnostic, for the node it is called on, and whether it throws does not
    depend on what was reported before. *)
Theorem X1_visitor_verdict (this : Rule) (node : Linked) :
  ∃ (fires : bool) (c : Completion),
    c ≠ Return
    ∧ ∀ st, Identifier this node st
            = (if fires then fst (report this node st) else st, c).
Proof. apply Identifier_Verdict. Qed.

(** X2. Options only add or only remove.  If [this'] has the pattern of
    [this], checks properties and class fields wherever [this] does, and
    restricts to declarations, ignores destructuring and ignores named
    imports only where [this] does, then on every node the two visitors
    complete alike and [this'] reports the node whenever [this] does. *)
Theorem X2_options_are_monotone (this this' : Rule) (node : Linked) :
  Looser this this' →
  ∃ (fires fires' : bool) (c : Completion),
    (fires = true → fires' = true)
    ∧ (∀ st, Identifier this node st
             = (if fires then fst (report this node st) else st, c))
    ∧ (∀ st, Identifier this' node st
             = (if fires' then fst (report this' node st) else st, c)).
Proof.
  intros Hlooser.
  destruct (Identifier_Below this this' node Hlooser)
    as (f & f' & c & Hf & Hv & Hv').
  exists f, f', c. split; [exact Hf|]. split; [exact Hv|].
  intros st. rewrite Hv'. destruct f'; [|done].
  destruct Hlooser as [Hp _]. unfold report. by rewrite Hp.
Qed.

Lemma X2_witness :
  let this := Config.closure Config.onlyDeclarations in
  let this' := Config.closure Config.properties in
  let node := entered Programs.bare_reference 2 in
  Looser this this'
  ∧ Identifier this node initial = (initial, Normal)
  ∧ reported (fst (Identifier this' node initial))
    = [descriptor "bad_name" Config.lowercase notMatch node].
Proof.
  intros this this' node.
  assert (Looser this this') as Hlooser by (by repeat split).
  split; [exact Hlooser|].
  destruct (X2_options_are_monotone this this' node Hlooser)
    as (f & f' & c & Hf & Hv & Hv').
  rewrite Hv, Hv'.
  assert (f' = true) as ->.
  { destruct f'; [done|]. specialize (Hv' initial). vm_compute in Hv'.
    discriminate Hv'. }
  assert (f = false) as ->.
  { destruct f; [|done]. specialize (Hv initial). vm_compute in Hv.
    discriminate Hv. }
  assert (c = Normal) as ->.
  { specialize (Hv initial). vm_compute in Hv. congruence. }
  split; reflexivity.
Defined.

(** ** A walk of the host *)

Lemma walk_app this l1 l2 st :
  walk this (l1 ++ l2) st = (walk this l1 ;; walk this l2)%stmt st.
Proof.
  revert st. induction l1 as [|node l1 IH]; intros st; simpl; [done|].
  unfold andThen in *.
  destruct (enter this node st) as [st1 []]; [apply IH|done|done].
Qed.

Lemma walk_reportedNodes_mono this nodes st k :
  k ∈ reportedNodes st → k ∈ reportedNodes (fst (walk this nodes st)).
Proof.
  apply (walk_Preserves (λ s, k ∈ reportedNodes s)).
  intros node _ s Hs. apply report_reportedNodes. by right.
Qed.

Lemma walk_reported_prefix this nodes st :
  reported st `prefix_of` reported (fst (walk this nodes st)).
Proof.
  apply (walk_Preserves (λ s, reported st `prefix_of` reported s)); [|done].
  intros node _ s Hs.
  destruct (report_reported this node s) as [-> | ->]; [done|].
  by apply prefix_app_r.
Qed.

(** A node the walk has gone past: entering it again changes nothing. *)
Lemma walk_settles this nodes : ∀ st st',
  walk this nodes st = (st', Normal) →
  ∀ node, node ∈ nodes → enter this node st' = (st', Normal).
Proof.
  induction nodes as [|n rest IH]; intros st st' Hwalk node Hin;
    [by apply elem_of_nil in Hin|].
  simpl in Hwalk. unfold andThen in Hwalk.
  destruct (enter this n st) as [st1 c1] eqn:Hn.
  destruct c1; [|discriminate|discriminate].
  apply elem_of_cons in Hin as [->|Hin]; [|by apply (IH st1)].
  destruct (enter_Verdict this n) as (f & c & _ & Hv).
  rewrite Hv in Hn. injection Hn as <- <-. rewrite Hv.
  destruct f; [|done]. rewrite report_seen; [done|].
  replace st' with (fst (walk this rest (fst (report this n st))))
    by (by rewrite Hwalk).
  apply walk_reportedNodes_mono, report_in.
Qed.

Lemma walk_settled this nodes st :
  (∀ node, node ∈ nodes → enter this node st = (st, Normal)) →
  walk this nodes st = (st, Normal).
Proof.
  induction nodes as [|n rest IH]; intros Hall; simpl; [done|].
  unfold andThen. rewrite (Hall n) by left.
  apply IH. intros node Hin. apply Hall. by right.
Qed.

(** X3. Walking the same nodes a second time, with the set of the first
    walk, adds nothing: the state and the completion are those of the first
    walk. *)
Theorem X3_second_walk_adds_nothing (this : Rule) (nodes : list Linked)
    (st : State) :
  walk this (nodes ++ nodes) st = walk this nodes st.
Proof.
  rewrite walk_app. unfold andThen.
  destruct (walk this nodes st) as [st' c] eqn:Hwalk.
  destruct c; [|done|done].
  apply walk_settled, (walk_settles this nodes st st' Hwalk).
Qed.

(** X4. After a walk from a fresh set, [reportedNodes] holds exactly the
    range keys of the diagnostics emitted: a key is in the set if and only
    if some diagnostic has it. *)
Theorem X4_set_is_the_keys_of_the_diagnostics (this : Rule)
    (nodes : list Linked) (k : string) :
  k ∈ reportedNodes (fst (walk this nodes initial))
  ↔ ∃ d, d ∈ reported (fst (walk this nodes initial))
         ∧ toString (Node.range (node d)) = k.
Proof.
  revert k.
  apply (walk_Preserves
           (λ s, ∀ k, k ∈ reportedNodes s
                      ↔ ∃ d, d ∈ reported s ∧ toString (Node.range (node d)) = k)).
  - intros n _ s Hs k. unfold report.
    destruct (bool_decide_reflect
                (toString (Node.range n) ∈ reportedNodes s)); simpl; [done|].
    rewrite elem_of_union, elem_of_singleton, Hs. split.
    + intros [->|(d & Hd & <-)].
      * eexists. split; [apply elem_of_app; right; left|done].
      * exists d. split; [apply elem_of_app; by left|done].
    + intros (d & [Hd| ->%list_elem_of_singleton]%elem_of_app & <-);
        [right; eauto|by left].
  - intros k. simpl. split; [by intros ?%not_elem_of_empty|].
    by intros (d & ?%elem_of_nil & _).
Qed.

(** X5. A walk only adds: the diagnostics it starts with are a prefix of
    those it ends with, and every key of the set it starts with is in the
    set it ends with. *)
Theorem X5_walk_only_adds (this : Rule) (nodes : list Linked) (st : State) :
  reported st `prefix_of` reported (fst (walk this nodes st))
  ∧ reportedNodes st ⊆ reportedNodes (fst (walk this nodes st)).
Proof.
  split; [apply walk_reported_prefix|].
  intros k. apply walk_reportedNodes_mono.
Qed.

Lemma enter_Justified this (all : list Linked) (n : Linked) st :
  n ∈ all →
  Forall (Justified this all) (reported st) →
  Forall (Justified this all) (reported (fst (enter this n st))).
Proof.
  intros Hin Hst. unfold enter.
  destruct (strictEq_spec (Node.type n) AST_NODE_TYPES.Identifier)
    as [Hty|]; [|done].
  destruct (Node.name n) as [name|] eqn:Hname;
    [|by destruct n as [[] ?]].
  destruct (isInvalid this name) eqn:Hinv;
    [|by rewrite (Identifier_valid_Silent this n name Hname Hinv st)].
  destruct (Identifier_Verdict this n) as (f & c & _ & Hv). rewrite Hv.
  destruct f; [|done]. unfold report. destruct (negb _); [|done]. simpl.
  apply Forall_app. split; [done|]. constructor; [|constructor].
  rewrite Hname, Hty. by repeat split.
Qed.

Lemma walk_Justified this (all : list Linked) : ∀ nodes st,
  (∀ n, n ∈ nodes → n ∈ all) →
  Forall (Justified this all) (reported st) →
  Forall (Justified this all) (reported (fst (walk this nodes st))).
Proof.
  induction nodes as [|n rest IH]; intros st Hsub Hst; simpl; [done|].
  unfold andThen.
  pose proof (enter_Justified this all n st (Hsub n ltac:(left)) Hst) as Hn.
  destruct (enter this n st) as [st1 []]; simpl in *; [|done|done].
  apply IH; [|done]. intros m Hm. apply Hsub. by right.
Qed.

(** X6. Every diagnostic of a run is accounted for: it is on a node of the
    tree, of type [Identifier], it carries the name of that node and the
    pattern text of the rule, its message is the ordinary one, and the name
    fails the pattern. *)
Theorem X6_every_diagnostic_is_justified (this : Rule) (ast : TSESTree.Node) :
  Forall (Justified this (traverse [] ast)) (validate this ast).
Proof. apply walk_Justified; [done|constructor]. Qed.

(** X7. Without a first option the rule flags nothing in a tree whose names
    are non-empty and free of line terminators, whatever the second option
    is. *)
Theorem X7_default_pattern_flags_nothing
    (options : option Options.t) (this : Rule) (ast : TSESTree.Node) :
  create None options = Some this →
  (∀ (node : Linked) name,
     node ∈ traverse [] ast → Node.name node = Some name →
     name ≠ "" ∧ RegExpSemantics.hasLineTerminator name = false) →
  validate this ast = [].
Proof.
  intros Hcreate Hnames.
  pose proof (walk_Justified this (traverse [] ast) (traverse [] ast) initial
                ltac:(done) ltac:(constructor)) as Hall.
  change (reported (fst (walk this (traverse [] ast) initial)))
    with (validate this ast) in Hall.
  destruct (validate this ast) as [|d rest]; [done|].
  apply Forall_cons in Hall as [(Hin & _ & Hname & Hinv & _) _].
  apply Hnames in Hname; [|done].
  apply RegExpFacts.test_anything in Hname.
  assert (regexp this = RegExpSemantics.anything) as Hre
    by (by injection Hcreate as <-).
  unfold isInvalid in Hinv. rewrite Hre, Hname in Hinv. discriminate Hinv.
Qed.

Lemma X7_witness :
  let this := rule "^.+$" RegExpSemantics.anything false false false false false in
  create None None = Some this
  ∧ validate this Programs.declare_then_use = [].
Proof.
  intros this. split; [reflexivity|].
  apply (X7_default_pattern_flags_nothing None this Programs.declare_then_use);
    [reflexivity|].
  intros node name Hin Hname.
  unfold Programs.declare_then_use in Hin. simpl in Hin.
  repeat (apply elem_of_cons in Hin as [->|Hin];
          [simpl in Hname;
           first [ discriminate Hname
                 | injection Hname as <-; split; [discriminate|reflexivity] ]
          |]).
  by apply elem_of_nil in Hin.
Defined.

Lemma walk_Below (this this' : Rule) : ∀ nodes st st',
  Looser this this' →
  reportedNodes st ⊆ reportedNodes st' →
  snd (walk this nodes st) = snd (walk this' nodes st')
  ∧ reportedNodes (fst (walk this nodes st))
    ⊆ reportedNodes (fst (walk this' nodes st')).
Proof.
  induction nodes as [|n rest IH]; intros st st' Hlooser Hsub; simpl; [done|].
  destruct (enter_Below this this' n Hlooser) as (f & f' & c & Hf & Hv & Hv').
  unfold andThen. rewrite Hv, Hv'.
  assert (reportedNodes (if f then fst (report this n st) else st)
          ⊆ reportedNodes (if f' then fst (report this n st') else st'))
    as Hsub'.
  { intros k. destruct f.
    - rewrite Hf by done. rewrite !report_reportedNodes.
      intros [->|?]; [by left|right; by apply Hsub].
    - intros Hk%Hsub. destruct f'; [|done].
      apply report_reportedNodes. by right. }
  destruct c; [by apply IH|done|done].
Qed.

(** X8. Over a whole tree too, options only add or only remove: with the
    options of [this'] set the way that checks more, the two runs complete
    alike and every range key flagged by [this] is flagged by [this']. *)
Theorem X8_runs_are_monotone (this this' : Rule) (ast : TSESTree.Node) :
  Looser this this' →
  snd (lint this ast) = snd (lint this' ast)
  ∧ reportedNodes (fst (lint this ast)) ⊆ reportedNodes (fst (lint this' ast)).
Proof. intros H. by apply walk_Below. Qed.

Lemma X8_witness :
  let this := Config.closure Config.ignoreDestructuring in
  let this' := Config.closure Config.properties in
  Looser this this'
  ∧ validate this Programs.destructure_shorthand = []
  ∧ reportedNodes (fst (lint this Programs.destructure_shorthand))
    ⊆ reportedNodes (fst (lint this' Programs.destructure_shorthand)).
Proof.
  intros this this'.
  assert (Looser this this') as Hlooser by (by repeat split).
  split; [exact Hlooser|]. split; [vm_compute; reflexivity|].
  apply (X8_runs_are_monotone this this' Programs.destructure_shorthand
           Hlooser).
Defined.

(** ** Branches of the visitor *)

(** X9. A renamed entry of an object pattern, [{ key: bad_name }] with two
    different names, creates a new identifier: its key is never reported,
    and its value is reported whenever its name fails the pattern, whatever
    the options are, [ignoreDestructuring] included. *)
Theorem X9_renamed_destructuring (this : Rule)
    rk k rv n rp (shorthand : bool) slot op up (st : State) :
  Node.type op = AST_NODE_TYPES.ObjectPattern →
  k ≠ n →
  let entry :=
    TSESTree.Property rp (TSESTree.Identifier rk k) (TSESTree.Identifier rv n)
                      shorthand in
  let keyNode :=
    link (TSESTree.Identifier rk k) ((Field "key", entry) :: (slot, op) :: up) in
  let valueNode :=
    link (TSESTree.Identifier rv n) ((Field "value", entry) :: (slot, op) :: up) in
  Identifier this keyNode st = (st, Normal)
  ∧ (isInvalid this n = true → n ≠ "" →
     toString rv ∉ reportedNodes st →
     Identifier this valueNode st
     = (state ({[ toString rv ]} ∪ reportedNodes st)
              (reported st ++ [descriptor n (pattern this) notMatch valueNode]),
        Normal)).
Proof.
  intros Hop Hne entry keyNode valueNode.
  assert ((Some k === Some n) = false) as Hkn.
  { apply strictEq_ne. congruence. }
  split.
  - unfold Identifier. simpl. rewrite Hop, Hkn, !strictEq_refl. simpl.
    rewrite !andb_false_r. by run.
  - intros Hinv Hn Hfresh. unfold Identifier, shouldReport. simpl.
    rewrite Hop, Hkn, Hinv, !strictEq_refl. rewrite (strictEq_ne n "") by done.
    simpl. rewrite !andb_false_r. simpl.
    destruct (checkProperties this), (ignoreDestructuring this),
      (onlyDeclarations this);
      unfold isInsideObjectPattern; simpl; rewrite ?Hop, ?strictEq_refl;
      by run.
Qed.

Lemma X9_witness :
  let this := Config.closure Config.ignoreDestructuring in
  let pattern :=
    link (TSESTree.ObjectPattern (6, 23)
            [TSESTree.Property (8, 21) (TSESTree.Identifier (8, 11) "key")
               (TSESTree.Identifier (13, 21) "bad_name") false]) [] in
  let valueNode := entered pattern 3 in
  Node.type pattern = AST_NODE_TYPES.ObjectPattern
  ∧ isInvalid this "bad_name" = true
  ∧ (toString (13, 21) ∉ reportedNodes initial)
  ∧ Identifier this (entered pattern 2) initial = (initial, Normal)
  ∧ Identifier this valueNode initial
    = (state ({[ toString (13, 21) ]} ∪ ∅)
             [descriptor "bad_name" Config.lowercase notMatch valueNode],
       Normal).
Proof.
  intros this pattern valueNode.
  split; [reflexivity|]. split; [reflexivity|].
  split; [apply not_elem_of_empty|].
  pose proof (X9_renamed_destructuring this (8, 11) "key" (13, 21) "bad_name"
                (8, 21) false (Element "properties" 0) pattern [] initial
                eq_refl ltac:(discriminate)) as [Hkey Hvalue].
  split; [exact Hkey|].
  exact (Hvalue eq_refl ltac:(discriminate) (not_elem_of_empty _)).
Defined.

(** X10. Outside the special contexts the rule is complete: under a parent
    that is not a member access, an object entry, an import specifier, a
    class field, a call or a constructor invocation, and with
    [onlyDeclarations] off, the visitor reports the node exactly when its
    name fails the pattern, and completes normally. *)
Theorem X10_ordinary_positions_are_checked
    (this : Rule) (node parent : Linked) (name : string) (st : State) :
  Node.name node = Some name →
  parentOf node = Some parent →
  Node.type parent ∉ [AST_NODE_TYPES.MemberExpression;
                      AST_NODE_TYPES.Property;
                      AST_NODE_TYPES.AssignmentPattern;
                      AST_NODE_TYPES.ImportSpecifier;
                      AST_NODE_TYPES.ImportNamespaceSpecifier;
                      AST_NODE_TYPES.ImportDefaultSpecifier;
                      AST_NODE_TYPES.PropertyDefinition;
                      AST_NODE_TYPES.CallExpression;
                      AST_NODE_TYPES.NewExpression] →
  onlyDeclarations this = false →
  Identifier this node st
  = (if isInvalid this name then fst (report this node st) else st, Normal).
Proof.
  intros Hname Hparent Hty Honly.
  repeat (apply not_elem_of_cons in Hty as [? Hty]).
  unfold Identifier. rewrite Hname, Hparent.
  rewrite (strictEq_ne (Node.type parent) AST_NODE_TYPES.MemberExpression)
    by done.
  simpl. rewrite Set_has_IMPORT_TYPES. unfold shouldReport.
  rewrite Set_has_ALLOWED_PARENT_TYPES, Honly.
  rewrite !(strictEq_ne (Node.type parent)) by done.
  simpl. destruct (isInvalid this name); simpl; [|done].
  unfold call, when. by rewrite report_eq.
Qed.

Lemma X10_witness :
  let this := Config.closure Config.none in
  let node := entered Programs.declare_then_use 3 in
  Node.name node = Some "bad_name"
  ∧ Node.type (entered Programs.declare_then_use 2)
    = AST_NODE_TYPES.VariableDeclarator
  ∧ onlyDeclarations this = false
  ∧ isInvalid this "bad_name" = true
  ∧ Identifier this node initial = (fst (report this node initial), Normal).
Proof.
  intros this node.
  split; [reflexivity|]. split; [reflexivity|]. split; [reflexivity|].
  split; [reflexivity|].
  apply (X10_ordinary_positions_are_checked this node
           (entered Programs.declare_then_use 2) "bad_name" initial);
    [reflexivity|reflexivity| |reflexivity].
  simpl. rewrite !not_elem_of_cons. repeat split; try discriminate.
  apply not_elem_of_nil.
Defined.

(** X11. With [properties] off, an identifier under a [Property] or an
    [AssignmentPattern] that is not directly inside an object pattern is
    never reported: the keys and values of an object literal, and a
    parameter or array element with a default value. *)
Theorem X11_entries_need_properties
    (this : Rule) (node parent : Linked) (st : State) :
  checkProperties this = false →
  parentOf node = Some parent →
  Node.type parent = AST_NODE_TYPES.Property
  ∨ Node.type parent = AST_NODE_TYPES.AssignmentPattern →
  (λ p : Linked, Node.type p) <$> parentOf parent
  ≠ Some AST_NODE_TYPES.ObjectPattern →
  Identifier this node st = (st, Normal).
Proof.
  intros Hopt Hparent Hty Hgp. unfold Identifier.
  destruct (Node.name node) as [name|]; [|done].
  rewrite Hparent, Hopt, (strictEq_ne _ _ Hgp).
  destruct Hty as [-> | ->]; simpl; by run.
Qed.

Lemma X11_witness :
  let this := Config.closure Config.none in
  let defaulted :=
    TSESTree.AssignmentPattern (11, 23)
      (TSESTree.Identifier (11, 19) "bad_name") (TSESTree.Literal (22, 23) "1") in
  let declaration :=
    TSESTree.FunctionDeclaration (0, 28) (TSESTree.Identifier (9, 10) "f")
      [defaulted] (TSESTree.BlockStatement (25, 28) []) in
  let node := entered declaration 3 in
  Node.name node = Some "bad_name"
  ∧ isInvalid this "bad_name" = true
  ∧ checkProperties this = false
  ∧ Identifier this node initial = (initial, Normal).
Proof.
  intros this defaulted declaration node.
  split; [reflexivity|]. split; [reflexivity|]. split; [reflexivity|].
  apply (X11_entries_need_properties this node (entered declaration 2) initial);
    [reflexivity|reflexivity|right; reflexivity|discriminate].
Defined.

(** X12. Under a class field, its key or its initializer, the visitor
    reports the node exactly when [classFields] is on and the name fails the
    pattern. *)
Theorem X12_class_fields
    (this : Rule) (node parent : Linked) (name : string) (st : State) :
  Node.name node = Some name →
  parentOf node = Some parent →
  Node.type parent = AST_NODE_TYPES.PropertyDefinition →
  Identifier this node st
  = (if checkClassFields this && isInvalid this name
     then fst (report this node st) else st,
     Normal).
Proof.
  intros Hname Hparent Hty. unfold Identifier.
  rewrite Hname, Hparent, Hty. simpl. rewrite Set_has_IMPORT_TYPES. simpl.
  destruct (_ && _); simpl; [|done].
  unfold call, when. by rewrite report_eq.
Qed.

Lemma X12_witness :
  let this := Config.closure Config.none in
  let node := entered Programs.public_field 5 in
  Node.name node = Some "bad_name"
  ∧ Node.type (entered Programs.public_field 4)
    = AST_NODE_TYPES.PropertyDefinition
  ∧ isInvalid this "bad_name" = true
  ∧ Identifier this node initial = (initial, Normal).
Proof.
  intros this node.
  split; [reflexivity|]. split; [reflexivity|]. split; [reflexivity|].
  apply (X12_class_fields this node (entered Programs.public_field 4)
           "bad_name" initial); reflexivity.
Defined.

(** X13. With [properties] on, an identifier under a member access whose
    object is an identifier of the same name, the object itself first of
    all, is reported exactly when the name fails the pattern. *)
Theorem X13_member_object
    (this : Rule) (node parent grandparent : Linked) (object : TSESTree.Node)
    (name : string) (st : State) :
  checkProperties this = true →
  Node.name node = Some name →
  parentOf node = Some parent →
  Node.type parent = AST_NODE_TYPES.MemberExpression →
  parentOf parent = Some grandparent →
  Node.object parent = Some object →
  Node.type object = AST_NODE_TYPES.Identifier →
  Node.name object = Some name →
  Identifier this node st
  = (if isInvalid this name then fst (report this node st) else st, Normal).
Proof.
  intros Hopt Hname Hparent Hty Hgp Hobject Hoty Honame. unfold Identifier.
  rewrite Hname, Hparent, Hty, Hgp, Hopt, Hobject. simpl.
  rewrite Hoty, Honame, !strictEq_refl. simpl.
  destruct (isInvalid this name); simpl; [|done].
  unfold call, andThen, when, skip. by rewrite report_eq.
Qed.

Lemma X13_witness :
  let this := Config.closure Config.properties in
  let node := entered Programs.member_read 3 in
  checkProperties this = true
  ∧ Node.name node = Some "obj"
  ∧ isInvalid this "obj" = false
  ∧ Identifier this node initial = (initial, Normal).
Proof.
  intros this node.
  split; [reflexivity|]. split; [reflexivity|]. split; [reflexivity|].
  apply (X13_member_object this node (entered Programs.member_read 2)
           (entered Programs.member_read 1) (TSESTree.Identifier (0, 3) "obj")
           "obj" initial); reflexivity.
Defined.

(** X14. [isInsideObjectPattern] answers [true] exactly when some ancestor
    of the node, at any distance, is an object pattern. *)
Theorem X14_isInsideObjectPattern (node : Linked) :
  isInsideObjectPattern node = true
  ↔ ∃ slot ancestor,
      (slot, ancestor) ∈ above node
      ∧ Node.type ancestor = AST_NODE_TYPES.ObjectPattern.
Proof.
  unfold isInsideObjectPattern.
  induction (above node) as [|[slot p] up IH]; simpl.
  - split; [done|]. by intros (? & ? & ?%elem_of_nil & _).
  - destruct (strictEq_spec (Node.type p) AST_NODE_TYPES.ObjectPattern)
      as [Hop|Hnot].
    + split; [|done]. intros _. exists slot, p. split; [left|done].
    + rewrite IH. split.
      * intros (s & a & Hin & Ha). exists s, a. split; [by right|done].
      * intros (s & a & [[= -> ->]|Hin]%elem_of_cons & Ha); [done|eauto].
Qed.

(** ** Range keys *)

Lemma noComma_pretty_N_go x : ∀ s, noComma s → noComma (pretty_N_go x s).
Proof.
  induction (N.lt_wf_0 x) as [x _ IH]; intros s Hs.
  assert (x = 0 ∨ 0 < x)%N as [->|Hpos] by lia.
  - by rewrite pretty_N_go_0.
  - rewrite pretty_N_go_step by done. apply IH.
    + by apply N.div_lt.
    + split; [|done]. unfold pretty_N_char. by repeat case_match.
Qed.

Lemma noComma_pretty (n : nat) : noComma (pretty n).
Proof.
  unfold pretty, pretty_nat, pretty, pretty_N.
  case_decide; [by repeat split|]. by apply noComma_pretty_N_go.
Qed.

Lemma comma_splits_once (a b c d : string) :
  noComma a → noComma c →
  a +:+ "," +:+ b = c +:+ "," +:+ d → a = c ∧ b = d.
Proof.
  revert c. induction a as [|x a IH]; intros [|y c] Ha Hc; simpl; intros H.
  - by simplify_eq.
  - simplify_eq. by destruct Hc.
  - simplify_eq. by destruct Ha.
  - simplify_eq. destruct Ha as [_ Ha], Hc as [_ Hc].
    by destruct (IH c Ha Hc) as [-> ->].
Qed.

(** X15. Two different ranges never have the same key: [range.toString()]
    is injective, so [report] suppresses a node only for a diagnostic of
    exactly its range. *)
Theorem X15_range_keys_are_injective (r r' : Range) :
  toString r = toString r' → r = r'.
Proof.
  destruct r as [a b], r' as [c d]. unfold toString. simpl. intros H.
  apply comma_splits_once in H as [Ha Hb]; [|apply noComma_pretty..].
  by apply (inj pretty) in Ha as ->; apply (inj pretty) in Hb as ->.
Qed.

Lemma X15_witness :
  toString (8, 16) = "8,16" ∧ ((8, 16) : Range) = (8, 16).
Proof.
  split; [reflexivity|].
  apply (X15_range_keys_are_injective (8, 16) (8, 16)). reflexivity.
Defined.

(** ** One diagnostic for each range *)

Lemma toString_inj (r r' : Range) : toString r = toString r' → r = r'.
Proof.
  destruct r as [a b], r' as [c d]. unfold toString. simpl. intros H.
  apply comma_splits_once in H as [Ha Hb]; [|apply noComma_pretty..].
  by apply (inj pretty) in Ha as ->; apply (inj pretty) in Hb as ->.
Qed.

(** After a walk from a fresh set, the key of a range is in [reportedNodes]
    exactly when a diagnostic of that range has been emitted. *)
Lemma walk_ranges this nodes (r : Range) :
  toString r ∈ reportedNodes (fst (walk this nodes initial))
  ↔ ∃ d, d ∈ reported (fst (walk this nodes initial))
         ∧ Node.range (node d) = r.
Proof.
  revert r.
  apply (walk_Preserves
           (λ s, ∀ r, toString r ∈ reportedNodes s
                      ↔ ∃ d, d ∈ reported s ∧ Node.range (node d) = r)).
  - intros n _ s Hs r. unfold report.
    destruct (bool_decide_reflect
                (toString (Node.range n) ∈ reportedNodes s)); simpl; [done|].
    rewrite elem_of_union, elem_of_singleton, Hs. split.
    + intros [->%toString_inj|(d & Hd & <-)].
      * eexists. split; [apply elem_of_app; right; left|done].
      * exists d. split; [apply elem_of_app; by left|done].
    + intros (d & [Hd| ->%list_elem_of_singleton]%elem_of_app & <-);
        [right; eauto|by left].
  - intros r. simpl. split; [by intros ?%not_elem_of_empty|].
    by intros (d & ?%elem_of_nil & _).
Qed.

(** A node that the visitor reports is in the set once the walk is past
    it. *)
Lemma walk_reports this nodes : ∀ st st' (n : Linked) c,
  walk this nodes st = (st', Normal) →
  n ∈ nodes →
  Verdict this n true c (enter this n) →
  toString (Node.range n) ∈ reportedNodes st'.
Proof.
  induction nodes as [|m rest IH]; intros st st' n c Hwalk Hin Hv;
    [by apply elem_of_nil in Hin|].
  simpl in Hwalk. unfold andThen in Hwalk.
  destruct (enter this m st) as [st1 c1] eqn:Hm.
  destruct c1; [|discriminate|discriminate].
  apply elem_of_cons in Hin as [->|Hin]; [|by apply (IH st1 st' n c)].
  rewrite Hv in Hm. injection Hm as <- _.
  replace st' with (fst (walk this rest (fst (report this m st))))
    by (by rewrite Hwalk).
  apply walk_reportedNodes_mono, report_in.
Qed.

Lemma report_initial this (n : Linked) :
  reported (fst (report this n initial)) ≠ [].
Proof.
  unfold report. simpl.
  rewrite (bool_decide_eq_false_2 (_ ∈ _)) by apply not_elem_of_empty.
  simpl. discriminate.
Qed.

Lemma Flagged_spec this (n : Linked) :
  Flagged this n ↔ ∃ c, Verdict this n true c (enter this n).
Proof.
  unfold Flagged. destruct (enter_Verdict this n) as (f & c & _ & Hv). split.
  - intros Hne. exists c. destruct f; [done|]. by rewrite Hv in Hne.
  - intros (c' & Hv'). rewrite Hv'. apply report_initial.
Qed.

Lemma enter_Flagged this (all : list Linked) (n : Linked) st :
  n ∈ all →
  Forall (λ d, node d ∈ all ∧ Flagged this (node d)) (reported st) →
  Forall (λ d, node d ∈ all ∧ Flagged this (node d))
         (reported (fst (enter this n st))).
Proof.
  intros Hin Hst. destruct (enter_Verdict this n) as (f & c & _ & Hv).
  rewrite Hv. destruct f; [|done].
  assert (Flagged this n) as Hn by (apply Flagged_spec; eauto).
  unfold report. destruct (negb _); [|done]. simpl.
  apply Forall_app. split; [done|]. by repeat constructor.
Qed.

Lemma walk_Flagged this (all : list Linked) : ∀ nodes st,
  (∀ n, n ∈ nodes → n ∈ all) →
  Forall (λ d, node d ∈ all ∧ Flagged this (node d)) (reported st) →
  Forall (λ d, node d ∈ all ∧ Flagged this (node d))
         (reported (fst (walk this nodes st))).
Proof.
  induction nodes as [|n rest IH]; intros st Hsub Hst; simpl; [done|].
  unfold andThen.
  pose proof (enter_Flagged this all n st (Hsub n ltac:(left)) Hst) as Hn.
  destruct (enter this n st) as [st1 []]; simpl in *; [|done|done].
  apply IH; [|done]. intros m Hm. apply Hsub. by right.
Qed.

Lemma NoDup_map_eq {A B : Type} (f : A → B) (l : list A) (x y : A) :
  NoDup (map f l) → x ∈ l → y ∈ l → f x = f y → x = y.
Proof.
  induction l as [|a l IH]; simpl; intros Hnd Hx Hy Hf;
    [by apply elem_of_nil in Hx|].
  apply NoDup_cons in Hnd as [Hnotin Hnd].
  apply elem_of_cons in Hx as [->|Hx], Hy as [->|Hy]; [done| | |by apply IH].
  - destruct Hnotin. rewrite Hf. by apply (list_elem_of_fmap_2 f).
  - destruct Hnotin. rewrite <- Hf. by apply (list_elem_of_fmap_2 f).
Qed.

(** C5. In one walk of the host, started on a fresh [reportedNodes], no two
    diagnostics have the same range, whatever nodes are entered and in
    whatever order; when the walk ends without an exception, every node
    that the rule flags on its own has exactly one diagnostic of its range,
    so no diagnostic is held back for one of another range; and every
    diagnostic is on a node of the walk that the rule flags.  In particular
    a shorthand entry [{ bad_name }] of an object pattern, whose key and
    value are two nodes with one range, adds exactly one diagnostic when
    its name fails the pattern and the walk before it has emitted none of
    that range. *)
Theorem C5_one_diagnostic_per_range (this : Rule) :
  (∀ nodes,
     NoDup (map (λ d, Node.range (node d))
                (reported (fst (walk this nodes initial)))))
  ∧ (∀ ast, NoDup (map (λ d, Node.range (node d)) (validate this ast)))
  ∧ (∀ nodes (n : Linked),
       snd (walk this nodes initial) = Normal →
       n ∈ nodes →
       Flagged this n →
       ∃ d, d ∈ reported (fst (walk this nodes initial))
            ∧ Node.range (node d) = Node.range n
            ∧ ∀ d', d' ∈ reported (fst (walk this nodes initial)) →
                    Node.range (node d') = Node.range n → d' = d)
  ∧ (∀ nodes d,
       d ∈ reported (fst (walk this nodes initial)) →
       node d ∈ nodes ∧ Flagged this (node d))
  ∧ (∀ before st r n rp slot op up,
       walk this before initial = (st, Normal) →
       (∀ d, d ∈ reported st → Node.range (node d) ≠ r) →
       ignoreDestructuring this = false →
       isInvalid this n = true →
       n ≠ "" →
       Node.type op = AST_NODE_TYPES.ObjectPattern →
       let name := TSESTree.Identifier r n in
       let entry := TSESTree.Property rp name name true in
       let keyNode := link name ((Field "key", entry) :: (slot, op) :: up) in
       let valueNode := link name ((Field "value", entry) :: (slot, op) :: up) in
       (Identifier this keyNode ;; Identifier this valueNode)%stmt st
       = (state ({[ toString r ]} ∪ reportedNodes st)
                (reported st ++ [descriptor n (pattern this) notMatch keyNode]),
          Normal)).
Proof.
  assert (∀ nodes,
            NoDup (map (λ d, Node.range (node d))
                       (reported (fst (walk this nodes initial))))) as Hnodup
    by (intros nodes; apply NoDup_ranges, walk_Deduplicated).
  split; [exact Hnodup|]. split; [intros ast; apply Hnodup|].
  split; [|split].
  - intros nodes n Hnormal Hin [c Hv]%Flagged_spec.
    assert (toString (Node.range n)
            ∈ reportedNodes (fst (walk this nodes initial))) as Hkey.
    { apply (walk_reports this nodes initial _ n c); [|done|done].
      destruct (walk this nodes initial); simpl in *. by subst. }
    apply walk_ranges in Hkey as (d & Hd & Hrange).
    exists d. split; [done|]. split; [done|].
    intros d' Hd' Hrange'.
    apply (NoDup_map_eq (λ d, Node.range (node d)) _ d' d (Hnodup nodes));
      [done|done|congruence].
  - intros nodes d Hd.
    pose proof (walk_Flagged this nodes nodes initial ltac:(done)
                  ltac:(constructor)) as Hall.
    rewrite Forall_forall in Hall. by apply Hall.
  - intros before st r n rp slot op up Hwalk Hnone Hopt Hinv Hne Hop name
      entry keyNode valueNode.
    assert (toString r ∉ reportedNodes st) as Hfresh.
    { replace st with (fst (walk this before initial)) in * by (by rewrite Hwalk).
      intros (d & Hd & Hr)%walk_ranges. by apply (Hnone d). }
    unfold Identifier, shouldReport. simpl.
    rewrite Hop, Hopt, Hinv, !strictEq_refl. rewrite (strictEq_ne n "") by done.
    destruct (checkProperties this), (onlyDeclarations this); by run.
Qed.

Lemma C5_witness :
  let this := Config.closure Config.none in
  let nodes := traverse [] Programs.two_references in
  let other := entered Programs.two_references 4 in
  let before := take 5 (traverse [] Programs.destructure_shorthand) in
  let pattern := entered Programs.destructure_shorthand 3 in
  let keyNode := entered Programs.destructure_shorthand 5 in
  let valueNode := entered Programs.destructure_shorthand 6 in
  (snd (walk this nodes initial) = Normal
   ∧ other ∈ nodes
   ∧ Flagged this other
   ∧ ∃ d, d ∈ reported (fst (walk this nodes initial))
          ∧ Node.range (node d) = (10, 19))
  ∧ (Node.range keyNode = Node.range valueNode
     ∧ walk this before initial = (initial, Normal)
     ∧ ignoreDestructuring this = false
     ∧ isInvalid this "bad_name" = true
     ∧ Node.type pattern = AST_NODE_TYPES.ObjectPattern
     ∧ (Identifier this keyNode ;; Identifier this valueNode)%stmt initial
       = (state ({[ toString (8, 16) ]} ∪ ∅)
                [descriptor "bad_name" Config.lowercase notMatch keyNode],
          Normal)).
Proof.
  intros this nodes other before pattern keyNode valueNode.
  assert (walk this before initial = (initial, Normal)) as Hbefore
    by reflexivity.
  assert (other ∈ nodes) as Hin
    by (apply list_elem_of_lookup; exists 4; reflexivity).
  assert (Flagged this other) as Hflagged by (vm_compute; discriminate).
  split.
  - split; [reflexivity|]. split; [exact Hin|]. split; [exact Hflagged|].
    destruct (proj1 (proj2 (proj2 (C5_one_diagnostic_per_range this)))
                nodes other eq_refl Hin Hflagged) as (d & Hd & Hrange & _).
    exists d. split; [exact Hd|exact Hrange].
  - split; [reflexivity|]. split; [exact Hbefore|]. split; [reflexivity|].
    split; [reflexivity|]. split; [reflexivity|].
    apply (proj2 (proj2 (proj2 (proj2 (C5_one_diagnostic_per_range this))))
             before initial (8, 16) "bad_name" (8, 16)
             (Element "properties" 0) pattern (above pattern) Hbefore).
    + intros d Hd. by apply elem_of_nil in Hd.
    + reflexivity.
    + reflexivity.
    + discriminate.
    + reflexivity.
Defined.

Example C5_programs :
  verify (Some Config.lowercase) (Some Config.none)
         Programs.destructure_shorthand
  = Some [("Identifier 'bad_name' does not match the pattern '^[a-z]+$'.",
           (8, 16))]
  ∧ verify (Some Config.lowercase) (Some Config.properties)
           Programs.destructure_shorthand
    = Some [("Identifier 'bad_name' does not match the pattern '^[a-z]+$'.",
             (8, 16))]
  ∧ verify (Some Config.lowercase) (Some Config.none) Programs.two_references
    = Some [("Identifier 'bad_name' does not match the pattern '^[a-z]+$'.",
             (0, 8));
            ("Identifier 'other_bad' does not match the pattern '^[a-z]+$'.",
             (10, 19))].
Proof. repeat split; vm_compute; reflexivity. Qed.

(** ** The [no-export-all] rule *)


Section NoExportAllFacts.
Import NoExportAll.
Variable ExportMap_get : string → option ExportMap.

(** X16. The visitor reports at most once, and never for
    [export * as name from], nor for a module that has no export map; what
    it reports is the declaration itself, with the message [noExportAll] and
    a fix that replaces exactly the range of the declaration. *)
Theorem X16_export_all_is_reported_once (node : ExportAllDeclaration) :
  length (ExportAllDeclaration_ ExportMap_get node) ≤ 1
  ∧ Forall (λ d, exported node = None
                 ∧ is_Some (ExportMap_get (source node))
                 ∧ NoExportAll.node d = node
                 ∧ NoExportAll.messageId d = "noExportAll"
                 ∧ fix_range (fix_ d) = range node)
           (ExportAllDeclaration_ ExportMap_get node)
  ∧ (exported node = None → is_Some (ExportMap_get (source node)) →
     length (ExportAllDeclaration_ ExportMap_get node) = 1).
Proof.
  unfold ExportAllDeclaration_.
  destruct (exported node) as [name|]; simpl.
  - split; [lia|]. split; [constructor|]. discriminate.
  - destruct (ExportMap_get (source node)) as [m|]; simpl.
    + split; [lia|]. split; [|done]. constructor; [|constructor]. eauto 10.
    + split; [lia|]. split; [constructor|]. by intros _ [? ?].
Qed.

(** X18. For a module with nothing to list, its namespace holding at most
    [default] and re-exporting nothing, the fix writes an empty export
    list. *)
Theorem X18_empty_export_list (node : ExportAllDeclaration) (m : ExportMap) :
  exported node = None →
  ExportMap_get (source node) = Some m →
  (∀ key, key ∈ namespace m → key = "default") →
  reexports m = [] →
  text <$> (fix_ <$> ExportAllDeclaration_ ExportMap_get node)
  = ["export {  } from '" +:+ source node +:+ "';"].
Proof.
  intros Hexp Hget Hns Hre. unfold ExportAllDeclaration_.
  rewrite Hexp, Hget. simpl. unfold exportNames. rewrite Hre, app_nil_r.
  assert (filter (λ key, key ≠ "default") (namespace m) = []) as ->.
  { induction (namespace m) as [|x l IH]; [done|].
    rewrite filter_cons. rewrite decide_False.
    - apply IH. intros key Hkey. apply Hns. by right.
    - intros Hx. apply Hx, Hns. left. }
  done.
Qed.

End NoExportAllFacts.

Lemma X16_witness :
  let get := λ _ : string, Some (NoExportAll.mkExportMap ["default"; "a"] ["b"]) in
  let node := NoExportAll.exportAll (0, 20) None "./x" in
  NoExportAll.exported node = None
  ∧ is_Some (get (NoExportAll.source node))
  ∧ length (NoExportAll.ExportAllDeclaration_ get node) = 1
  ∧ NoExportAll.text <$> (NoExportAll.fix_ <$> NoExportAll.ExportAllDeclaration_ get node)
    = ["export { a, b } from './x';"].
Proof.
  intros get node. split; [reflexivity|]. split; [by eexists|].
  split; [|reflexivity].
  apply (proj2 (proj2 (X16_export_all_is_reported_once get node)));
    [reflexivity|by eexists].
Defined.


Lemma X18_witness :
  let get := λ _ : string, Some (NoExportAll.mkExportMap ["default"] []) in
  let node := NoExportAll.exportAll (0, 20) None "./x" in
  NoExportAll.text <$> (NoExportAll.fix_ <$> NoExportAll.ExportAllDeclaration_ get node)
  = ["export {  } from './x';"].
Proof.
  intros get node.
  apply (X18_empty_export_list get node (NoExportAll.mkExportMap ["default"] []));
    [reflexivity|reflexivity| |reflexivity].
  intros key Hkey. by apply list_elem_of_singleton in Hkey.
Defined.

(** ** The README script *)

Lemma fold_left_push {A B : Type} (f : A → B) (l : list A) (acc : list B) :
  fold_left (λ ps e, ps ++ [f e]) l acc = acc ++ map f l.
Proof.
  revert acc. induction l as [|x l IH]; intros acc; simpl.
  - by rewrite app_nil_r.
  - by rewrite IH, <- app_assoc.
Qed.

(** X19. An error that names its message by [messageId] and has no
    [message] of its own is written out as [// Message: undefined]: for a
    test case with nothing but code and such errors, the snippet is the
    code followed by one such line for each error. *)
Theorem X19_errors_without_message (Json : Type)
    (JSON_stringify : Json → string) (ToBoolean : Json → bool)
    (s : Readme.Setup Json) (es : list Readme.Error) :
  Readme.options Json s = None →
  Readme.settings Json s = None →
  Readme.rules Json s = None →
  Readme.errors Json s = Some es →
  Forall (λ e, Readme.message e = None) es →
  Readme.formatCodeSnippet Json JSON_stringify ToBoolean s
  = String.concat Readme.LF
      (Readme.code Json s :: replicate (length es) "// Message: undefined").
Proof.
  intros Ho Hs Hr He Hall. unfold Readme.formatCodeSnippet.
  rewrite Ho, Hs, Hr, He. cbv zeta. rewrite fold_left_push.
  change ([] ++ [Readme.code Json s] ++ map Readme.messageLine es)
    with (Readme.code Json s :: map Readme.messageLine es).
  do 2 f_equal. clear He.
  induction Hall as [|e l Hmsg _ IH]; simpl; [done|].
  unfold Readme.messageLine at 1. rewrite Hmsg, IH. reflexivity.
Qed.

Lemma X19_witness :
  let s := Readme.setup unit None None "const {b, a} = foo"
                        (Some [Readme.error None]) None in
  Readme.formatCodeSnippet unit (λ _, "{}") (λ _, true) s
  = "const {b, a} = foo" +:+ Readme.LF +:+ "// Message: undefined".
Proof.
  intros s.
  apply (X19_errors_without_message unit (λ _, "{}") (λ _, true) s
           [Readme.error None]);
    try reflexivity.
  by repeat constructor.
Defined.
